(** * Policy ensemble arbitration, domain state schema and evaluation store

    A shallow embedding of [rasa/core/policies/ensemble.py],
    [rasa/core/domain.py] and [rasa/core/test.py].

    Conventions of the embedding:
    - a Python exception is [None] of an [option] result;
    - probabilities (Python floats) are rationals [Q]; the arbitration code
      only compares, takes maxima and stores constants, so no rounding is
      involved and non-NaN floats compare exactly like the rationals they
      denote;
    - Python [int] priorities are [Z], list indices are [nat];
    - a Python [dict] that is iterated in insertion order is an association
      list; a [set] is a duplicate-free list compared up to membership. *)

From stdpp Require Import base list sets gmap strings pretty.
From Stdlib Require Import Ascii QArith ZArith Lqa Lia.

Local Open Scope nat_scope.
Local Open Scope string_scope.
Local Infix "+s+" := String.append (at level 60, right associativity).

(* ------------------------------------------------------------------ *)
(** ** Python helpers *)

(** [lst.index(x)] on a list of strings: first position, [ValueError]
    (here [None]) when absent. *)
Fixpoint list_index (x : string) (l : list string) : option nat :=
  match l with
  | [] => None
  | y :: l' => if String.eqb x y then Some 0 else S <$> list_index x l'
  end.

(** [lst.index(x)] on a list of floats ([==] comparison). *)
Fixpoint list_index_q (x : Q) (l : list Q) : option nat :=
  match l with
  | [] => None
  | y :: l' => if Qeq_bool y x then Some 0 else S <$> list_index_q x l'
  end.

(** [lst[i] = v]: [IndexError] (here [None]) out of range. *)
Definition list_set {A} (l : list A) (i : nat) (v : A) : option (list A) :=
  if decide (i < length l) then Some (<[i := v]> l) else None.

(** [np.max(lst)]: [ValueError] on an empty sequence. *)
Definition qmax (a b : Q) : Q := if Qle_bool a b then b else a.

Definition np_max (l : list Q) : option Q :=
  match l with
  | [] => None
  | x :: l' => Some (fold_left qmax l' x)
  end.

(** [s.endswith(suffix)] *)
Definition endswith (s suffix : string) : bool :=
  let n := String.length s in
  let k := String.length suffix in
  (k <=? n)%nat && String.eqb (String.substring (n - k) k s) suffix.

(** Python tuple comparison [(c, p) > (m, b)] for a float and an int:
    the first components decide unless they are [==]. *)
Definition tuple_gt (c : Q) (p : Z) (m : Q) (b : Z) : bool :=
  if Qeq_bool c m then (b <? p)%Z else negb (Qle_bool c m).

(* ------------------------------------------------------------------ *)
(** ** Events and trackers *)

Inductive Event :=
| ActionExecuted (action_name : string)
| ActionExecutionRejected (action_name : string)
| UserUttered (text : string)
| SlotSet (key : string)
| OtherEvent.

Record DialogueStateTracker := mkTracker { events : list Event }.

(** Modelled from the spec (the tracker, [rasa/core/trackers.py], is not part
    of the sources): [latest_action_name] is the name of the most recently
    executed action of the event log, [None] before any action ran. *)
Fixpoint latest_action_go (acc : option string) (evs : list Event) : option string :=
  match evs with
  | [] => acc
  | ActionExecuted a :: evs' => latest_action_go (Some a) evs'
  | _ :: evs' => latest_action_go acc evs'
  end.

Definition latest_action_name (t : DialogueStateTracker) : option string :=
  latest_action_go None (events t).

(** [tracker.events[-1]] when there is one. *)
Definition last_event (t : DialogueStateTracker) : option Event :=
  last (events t).

(* ------------------------------------------------------------------ *)
(** ** Domain *)

Record Slot := mkSlot {
  slot_name : string;
  feature_dimensionality : nat }.

(** [use_entities] after construction: [True] or an explicit list. *)
Inductive UseEntities := UseAll | UseList (l : list string).

Record IntentProps := mkIntentProps {
  use_entities : UseEntities;
  ignore_entities : list string;
  triggers : option string }.

Record Domain := mkDomain {
  intent_properties : list (string * IntentProps);
  entities : list string;
  slots : list Slot;
  templates : list (string * list string);
  user_actions : list string;
  form_names : list string;
  action_names : list string;
  store_entities_as_slots : bool }.

Definition ACTION_LISTEN_NAME : string := "action_listen".

(** [Domain.index_for_action]: [NameError] when the name is unknown. *)
Definition index_for_action (d : Domain) (name : string) : option nat :=
  list_index name (action_names d).

Definition num_actions (d : Domain) : nat := length (action_names d).

(* ------------------------------------------------------------------ *)
(** ** Policies *)

Record Policy := mkPolicy {
  policy_type_name : string;            (* type(p).__name__ *)
  priority : Z;
  is_fallback_policy : bool;            (* isinstance(p, FallbackPolicy) *)
  fallback_action_name : string;
  predict_action_probabilities : DialogueStateTracker -> Domain -> list Q }.

(** Modelled from the spec ([FallbackPolicy.fallback_scores] lives in
    [rasa/core/policies/fallback.py], not part of the sources): the fixed
    fallback distribution is concentrated on the fallback action, score 1.0
    there and 0.0 elsewhere, over the domain's action index space. *)
Definition fallback_scores (p : Policy) (d : Domain) : option (list Q) :=
  idx ← index_for_action d (fallback_action_name p);
  list_set (replicate (num_actions d) 0%Q) idx 1%Q.

Definition MemoizationPolicy_name : string := "MemoizationPolicy".
Definition AugmentedMemoizationPolicy_name : string := "AugmentedMemoizationPolicy".

Definition is_not_memo_policy (best_policy_name : string) : bool :=
  let is_memo := endswith best_policy_name ("_" +s+ MemoizationPolicy_name) in
  let is_augmented :=
    endswith best_policy_name ("_" +s+ AugmentedMemoizationPolicy_name) in
  negb (is_memo || is_augmented).

(** ["policy_{}_{}".format(i, type(p).__name__)] *)
Definition policy_name (i : nat) (p : Policy) : string :=
  "policy_" +s+ pretty i +s+ "_" +s+ policy_type_name p.

Record SimplePolicyEnsemble := mkEnsemble { policies : list Policy }.

(** Running best of the loop of [probabilities_using_best_policy]:
    [result], [max_confidence], [best_policy_name], [best_policy_priority]. *)
Record BestState := mkBest {
  result : option (list Q);
  max_confidence : Q;
  best_policy_name : option string;
  best_policy_priority : Z }.

Definition init_best : BestState := mkBest None (-1)%Q None (-1)%Z.

(** Lines 388-395: the policy's distribution, with the rejected action's
    index zeroed when the last event is a rejection. *)
Definition adjusted_probabilities (p : Policy) (t : DialogueStateTracker) (d : Domain)
    : option (list Q) :=
  let probabilities := predict_action_probabilities p t d in
  match last_event t with
  | Some (ActionExecutionRejected a) =>
      idx ← index_for_action d a; list_set probabilities idx 0%Q
  | _ => Some probabilities
  end.

(** One iteration of the loop, lines 388-402. *)
Definition best_step (t : DialogueStateTracker) (d : Domain) (i : nat) (p : Policy)
    (st : BestState) : option BestState :=
  probabilities ← adjusted_probabilities p t d;
  confidence ← np_max probabilities;
  if tuple_gt confidence (priority p) (max_confidence st) (best_policy_priority st)
  then Some (mkBest (Some probabilities) confidence (Some (policy_name i p)) (priority p))
  else Some st.

(** [for i, p in enumerate(self.policies)], starting at index [i]. *)
Fixpoint best_loop (t : DialogueStateTracker) (d : Domain) (i : nat) (ps : list Policy)
    (st : BestState) : option BestState :=
  match ps with
  | [] => Some st
  | p :: ps' => st' ← best_step t d i p st; best_loop t d (S i) ps' st'
  end.

(** [[(i, p) for i, p in enumerate(self.policies) if isinstance(p, FallbackPolicy)]][0] *)
Fixpoint first_fallback_from (i : nat) (ps : list Policy) : option (nat * Policy) :=
  match ps with
  | [] => None
  | p :: ps' => if is_fallback_policy p then Some (i, p) else first_fallback_from (S i) ps'
  end.

Definition first_fallback (ps : list Policy) : option (nat * Policy) :=
  first_fallback_from 0 ps.

(** [SimplePolicyEnsemble.probabilities_using_best_policy] *)
Definition probabilities_using_best_policy (e : SimplePolicyEnsemble)
    (t : DialogueStateTracker) (d : Domain)
    : option (option (list Q) * option string) :=
  st ← best_loop t d 0 (policies e) init_best;
  match result st with
  | None => Some (None, best_policy_name st)
  | Some r =>
      top ← list_index_q (max_confidence st) r;
      listen ← index_for_action d ACTION_LISTEN_NAME;
      name ← best_policy_name st;
      if (top =? listen)%nat
         && bool_decide (latest_action_name t = Some ACTION_LISTEN_NAME)
         && is_not_memo_policy name
      then
        match first_fallback (policies e) with
        | Some (fallback_idx, fallback_policy) =>
            r' ← fallback_scores fallback_policy d;
            Some (Some r', Some (policy_name fallback_idx fallback_policy))
        | None => Some (Some r, Some name)
        end
      else Some (Some r, Some name)
  end.

(* ------------------------------------------------------------------ *)
(** ** Sample data *)

Definition sample_domain : Domain :=
  mkDomain [] [] [] [] [] [] [ACTION_LISTEN_NAME; "action_default_fallback"; "utter_greet"] true.

Definition const_policy (ty : string) (prio : Z) (fb : bool) (out : list Q) : Policy :=
  mkPolicy ty prio fb "action_default_fallback" (fun _ _ => out).

(** Decimal renderings contain no underscore. *)
Fixpoint no_underscore (s : string) : bool :=
  match s with
  | EmptyString => true
  | String c s' => negb (Ascii.eqb c "_"%char) && no_underscore s'
  end.

(* ------------------------------------------------------------------ *)
(** ** The arbitration loop *)

(** The confidence [np.max] of a policy's (zeroed) distribution. *)
Definition policy_key (t : DialogueStateTracker) (d : Domain) (p : Policy) : option Q :=
  r ← adjusted_probabilities p t d; np_max r.

(* ------------------------------------------------------------------ *)
(** ** Sample ensembles *)

Definition ted_policy : Policy := const_policy "TEDPolicy" 1 false [9#10; 1#10; 0]%Q.
Definition fallback_policy : Policy := const_policy "FallbackPolicy" 4 true [0; 3#10; 0]%Q.
Definition sample_ensemble : SimplePolicyEnsemble := mkEnsemble [ted_policy; fallback_policy].

Definition tracker_after_user : DialogueStateTracker :=
  mkTracker [ActionExecuted ACTION_LISTEN_NAME; UserUttered "hi"].

Definition tracker_fallback_rejected : DialogueStateTracker :=
  mkTracker [ActionExecuted ACTION_LISTEN_NAME; UserUttered "hi";
             ActionExecutionRejected "action_default_fallback"].

Definition tracker_greet_fallback_rejected : DialogueStateTracker :=
  mkTracker [ActionExecuted ACTION_LISTEN_NAME; UserUttered "hi";
             ActionExecuted "utter_greet"; ActionExecutionRejected "action_default_fallback"].

Definition tie_ensemble : SimplePolicyEnsemble :=
  mkEnsemble [const_policy "A" 1 false [1#2; 1#4; 1#4]%Q;
              const_policy "B" 1 false [1#4; 1#2; 1#4]%Q].

(* ------------------------------------------------------------------ *)
(** ** Domain: state schema *)

(** [sorted(xs, key=key)]: a stable insertion sort (Python compares
    strings by code points, [String.ltb] by ASCII codes). *)
Fixpoint insert_by {A} (key : A -> string) (x : A) (l : list A) : list A :=
  match l with
  | [] => [x]
  | y :: l' => if String.ltb (key x) (key y) then x :: l else y :: insert_by key x l'
  end.

Definition sorted_by {A} (key : A -> string) (l : list A) : list A :=
  fold_left (fun acc x => insert_by key x acc) l [].

Definition sorted_strings (l : list string) : list string := sorted_by id l.

(** [lazy_property intents]: [sorted(self.intent_properties.keys())]. *)
Definition intents (d : Domain) : list string :=
  sorted_strings (map fst (intent_properties d)).

Fixpoint range_map {A} (f : nat -> A) (i n : nat) : list A :=
  match n with
  | 0 => []
  | S n' => f i :: range_map f (S i) n'
  end.

(** [slot_states]: [f"slot_{s.name}_{i}"] for every slot and dimension. *)
Definition slot_states (d : Domain) : list string :=
  concat (map (fun s => range_map (fun i => "slot_" +s+ slot_name s +s+ "_" +s+ pretty i)
                                  0 (feature_dimensionality s)) (slots d)).

Definition PREV_PREFIX : string := "prev_".
Definition ACTIVE_FORM_PREFIX : string := "active_form_".

Definition prev_action_states (d : Domain) : list string :=
  map (fun a => PREV_PREFIX +s+ a) (action_names d).

Definition intent_states (d : Domain) : list string :=
  map (fun i => "intent_" +s+ i) (intents d).

Definition entity_states (d : Domain) : list string :=
  map (fun e => "entity_" +s+ e) (entities d).

Definition form_states (d : Domain) : list string :=
  map (fun f => "active_form_" +s+ f) (form_names d).

Definition input_states (d : Domain) : list string :=
  intent_states d ++ entity_states d ++ slot_states d ++ prev_action_states d
  ++ form_states d.

Definition num_states (d : Domain) : nat := length (input_states d).

(** [{f: i for i, f in enumerate(xs)}]: later positions overwrite earlier. *)
Fixpoint enumerate_map (i : nat) (l : list string) (m : gmap string nat) : gmap string nat :=
  match l with
  | [] => m
  | f :: l' => enumerate_map (S i) l' (<[f := i]> m)
  end.

Definition input_state_map (d : Domain) : gmap string nat :=
  enumerate_map 0 (input_states d) ∅.

Definition index_of_state (d : Domain) (state_name : string) : option nat :=
  input_state_map d !! state_name.

(** The persisted [domain.json] document: [{"states": [...]}]. *)
Record DomainSpecification := mkSpecification { spec_states : list string }.

Inductive InvalidDomain := mkInvalidDomain (message : string).

(** [set(a) - set(b)] as a duplicate-free list (a Python set's iteration
    order is unspecified; the list keeps the order of [a]). *)
Definition set_difference (a b : list string) : list string :=
  remove_dups (filter (fun x => x ∉ b) a).

Definition nl : string := String (Ascii.ascii_of_nat 10) EmptyString.
Definition tab : string := String (Ascii.ascii_of_nat 9) EmptyString.

Definition specification_changed_message (missing additional : string) : string :=
  "Domain specification has changed. " +s+
  "You MUST retrain the policy. " +s+
  "Detected mismatch in domain specification. " +s+
  "The following states have been " +s+ nl +s+
  tab +s+ " - removed: " +s+ missing +s+ " " +s+ nl +s+
  tab +s+ " - added:   " +s+ additional +s+ " ".

(** [Domain.compare_with_specification], after [load_specification]:
    [inl] is the raised [InvalidDomain], [inr] the returned value. *)
Definition compare_with_specification (d : Domain) (loaded : DomainSpecification)
    : InvalidDomain + bool :=
  let states := spec_states loaded in
  if bool_decide (states ⊆ input_states d /\ input_states d ⊆ states) then inr true
  else
    let missing := String.concat "," (set_difference states (input_states d)) in
    let additional := String.concat "," (set_difference (input_states d) states) in
    inl (mkInvalidDomain (specification_changed_message missing additional)).

Definition greet_domain : Domain :=
  mkDomain [("greet", mkIntentProps UseAll [] None)] ["name"] [mkSlot "name" 1] []
           ["utter_greet"] [] [ACTION_LISTEN_NAME; "utter_greet"] true.

(* ------------------------------------------------------------------ *)
(** ** Model compatibility guard *)

(** [dict.get(key)] on a JSON object with string values. *)
Fixpoint dict_get {V} (key : string) (d : list (string * V)) : option V :=
  match d with
  | [] => None
  | (k, v) :: d' => if String.eqb k key then Some v else dict_get key d'
  end.

Record UnsupportedDialogueModelError := mkUnsupported {
  error_message : string;
  error_model_version : string }.

(** [needle] occurs in [hay]. *)
Definition contains (needle hay : string) : Prop :=
  exists pre post, hay = pre +s+ needle +s+ post.

(* ------------------------------------------------------------------ *)
(** ** Evaluation store *)

(** An entity annotation: a JSON object with string values. *)
Definition EntityDict := list (string * string).

Record EvaluationStore := mkStore {
  action_predictions : list string;
  action_targets : list string;
  intent_predictions : list string;
  intent_targets : list string;
  entity_predictions : list EntityDict;
  entity_targets : list EntityDict }.

(** An argument of [add_to_store]: [None], a single item, or a list. *)
Inductive StoreArg (A : Type) := NoArg | OneItem (x : A) | Items (xs : list A).
Arguments NoArg {A}.
Arguments OneItem {A} x.
Arguments Items {A} xs.

(** [if v: attr.extend(v) if isinstance(v, list) else attr.append(v)];
    [truthy] is Python's truth value of a single item. *)
Definition add_arg {A} (truthy : A -> bool) (attr : list A) (v : StoreArg A) : list A :=
  match v with
  | NoArg => attr
  | OneItem x => if truthy x then attr ++ [x] else attr
  | Items xs => attr ++ xs
  end.

Definition str_truthy (s : string) : bool := negb (String.eqb s "").
Definition dict_truthy (e : EntityDict) : bool := negb (bool_decide (e = [])).

Definition add_to_store (s : EvaluationStore)
    (ap at' ip it : StoreArg string) (ep et : StoreArg EntityDict) : EvaluationStore :=
  mkStore (add_arg str_truthy (action_predictions s) ap)
          (add_arg str_truthy (action_targets s) at')
          (add_arg str_truthy (intent_predictions s) ip)
          (add_arg str_truthy (intent_targets s) it)
          (add_arg dict_truthy (entity_predictions s) ep)
          (add_arg dict_truthy (entity_targets s) et).

Definition merge_store (s other : EvaluationStore) : EvaluationStore :=
  add_to_store s (Items (action_predictions other)) (Items (action_targets other))
    (Items (intent_predictions other)) (Items (intent_targets other))
    (Items (entity_predictions other)) (Items (entity_targets other)).

Inductive StoreOp :=
| AddToStore (ap at' ip it : StoreArg string) (ep et : StoreArg EntityDict)
| MergeStore (other : EvaluationStore)
| MergeStoreSelf.   (* [store.merge_store(store)]: the lists alias *)

Definition apply_op (s : EvaluationStore) (op : StoreOp) : EvaluationStore :=
  match op with
  | AddToStore ap at' ip it ep et => add_to_store s ap at' ip it ep et
  | MergeStore other => merge_store s other
  | MergeStoreSelf => merge_store s s
  end.

Definition run_ops (s : EvaluationStore) (ops : list StoreOp) : EvaluationStore :=
  fold_left apply_op ops s.

(** Modelled from the spec ([rasa.core.utils.pad_lists_to_size] is not part
    of the sources): the shorter of the two lists is padded at its end with
    the padding value up to the length of the longer one. *)
Definition pad_lists_to_size (x y : list string) (padding_value : string)
    : list string * list string :=
  if decide (length y < length x)
  then (x, (y ++ replicate (length x - length y) padding_value)%list)
  else ((x ++ replicate (length y - length x) padding_value)%list, y).

(* ------------------------------------------------------------------ *)
(** ** Domain construction *)

(** Raw [use_entities] values of a domain file. *)
Inductive RawUseEntities := RawTrue | RawFalse | RawNull | RawList (l : list string).

(** An entry of the [intents] list: a bare name or a one-key dict whose
    [use_entities]/[ignore_entities] keys may be absent ([None]). *)
Inductive IntentDecl :=
| IntentName (name : string)
| IntentDict (name : string) (use : option RawUseEntities)
             (ignore : option (list string)) (trigger : option string).

Inductive Warning :=
| AmbiguousEntitiesWarning (ambiguous : list string) (intent_name : option string).

Definition decl_name (i : IntentDecl) : string :=
  match i with IntentName n => n | IntentDict n _ _ _ => n end.

(** The [setdefault] normalisation of [collect_intent_properties]. *)
Definition normalise_intent (i : IntentDecl) : string * IntentProps :=
  match i with
  | IntentName n => (n, mkIntentProps UseAll [] None)
  | IntentDict n use ignore trig =>
      let use' := match use with
                  | None | Some RawTrue => UseAll
                  | Some RawFalse | Some RawNull => UseList []
                  | Some (RawList l) => UseList l
                  end in
      (n, mkIntentProps use' (default [] ignore) trig)
  end.

Fixpoint collect_intent_properties_go (acc : list (string * IntentProps))
    (decls : list IntentDecl) : option (list (string * IntentProps)) :=
  match decls with
  | [] => Some acc
  | i :: decls' =>
      let '(n, p) := normalise_intent i in
      if decide (n ∈ map fst acc) then None       (* "Intents are not unique!" *)
      else collect_intent_properties_go (acc ++ [(n, p)])%list decls'
  end.

(** [Domain.collect_intent_properties]: [None] is the raised [InvalidDomain]. *)
Definition collect_intent_properties (decls : list IntentDecl)
    : option (list (string * IntentProps)) :=
  collect_intent_properties_go [] decls.

(** Modelled from the spec ([rasa/core/actions/action.py] is not part of the
    sources): the fixed default actions, listen first. *)
Definition default_action_names : list string :=
  [ACTION_LISTEN_NAME; "action_restart"; "action_back"; "action_default_fallback"].

(** Modelled from the spec: the user actions are the declared actions
    followed by the (sorted) utterance names of the templates that are not
    declared already. *)
Definition combine_with_templates (actions : list string)
    (templates : list (string * list string)) : list string :=
  (actions ++ filter (fun a => a ∉ actions) (sorted_strings (map fst templates)))%list.

(** Modelled from the spec: [action_names] starts with the default actions,
    followed by the user actions that are not default actions. *)
Definition combine_user_with_default_actions (user_actions : list string) : list string :=
  (default_action_names ++ filter (fun a => a ∉ default_action_names) user_actions)%list.

(** [Domain._check_domain_sanity]: no duplicate actions, slots or entities,
    and every [triggers] names an action of the domain. *)
Definition check_domain_sanity (d : Domain) : bool :=
  bool_decide (NoDup (action_names d)) &&
  bool_decide (NoDup (map slot_name (slots d))) &&
  bool_decide (NoDup (entities d)) &&
  forallb (fun ip => match triggers ip.2 with
                     | Some a => bool_decide (a ∈ action_names d)
                     | None => true
                     end) (intent_properties d).

(** [Domain.__init__]: the constructed domain ([None] when [InvalidDomain]
    is raised) and the warnings it emits (it calls no [raise_warning]). *)
Definition Domain_init (intents : list IntentDecl) (entities : list string)
    (slots : list Slot) (templates : list (string * list string))
    (action_names : list string) (form_names : list string)
    (store_entities_as_slots : bool) : option Domain * list Warning :=
  (props ← collect_intent_properties intents;
   let user_actions := combine_with_templates action_names templates in
   let all_actions :=
     (combine_user_with_default_actions user_actions ++ form_names)%list in
   let d := mkDomain props entities slots templates user_actions form_names
                     all_actions store_entities_as_slots in
   if check_domain_sanity d then Some d else None,
   []).

(* ------------------------------------------------------------------ *)
(** ** Featurized entities *)

Record UserMessage := mkMessage {
  msg_intent_name : option string;      (* latest_message.intent.get("name") *)
  msg_entities : list EntityDict }.

(** [Domain.intent_config(name)]: [None] stands for the empty dict. *)
Definition intent_config (d : Domain) (name : option string) : option IntentProps :=
  match name with
  | Some n => dict_get n (intent_properties d)
  | None => None
  end.

(** [{entity["entity"] for entity in entities if "entity" in entity.keys()}] *)
Definition entity_names (msg : UserMessage) : list string :=
  remove_dups (omap (dict_get "entity") (msg_entities msg)).

(** [Domain._get_featurized_entities]: the featurized entity names and the
    warnings emitted. *)
Definition get_featurized_entities (d : Domain) (msg : UserMessage)
    : list string * list Warning :=
  let intent_name := msg_intent_name msg in
  let names := entity_names msg in
  let include := match intent_config d intent_name with
                 | Some p => use_entities p | None => UseAll end in
  let ignore := match intent_config d intent_name with
                | Some p => ignore_entities p | None => [] end in
  let included_entities :=
    match include with UseAll => names | UseList l => remove_dups l end in
  let excluded_entities := remove_dups ignore in
  let wanted_entities := set_difference included_entities excluded_entities in
  let explicitly_included := match include with UseList _ => true | UseAll => false end in
  let ambiguous_entities := filter (fun x => x ∈ excluded_entities) included_entities in
  let warnings :=
    if explicitly_included && negb (bool_decide (ambiguous_entities = []))
    then [AmbiguousEntitiesWarning ambiguous_entities intent_name] else [] in
  (filter (fun x => x ∈ wanted_entities) names, warnings).

Definition ambiguous_intent : IntentDecl :=
  IntentDict "inform" (Some (RawList ["city"; "date"])) (Some ["date"]) None.

Definition ambiguous_domain_init : option Domain * list Warning :=
  Domain_init [ambiguous_intent] ["city"; "date"] [] [] ["utter_ask"] [] true.

Definition inform_message : UserMessage :=
  mkMessage (Some "inform") [[("entity", "city"); ("value", "Rome")];
                             [("entity", "date"); ("value", "today")]].

(* ------------------------------------------------------------------ *)
(** ** Merging domains *)

(** [d[k] = v] on a dict kept as an association list in insertion order. *)
Fixpoint dict_set {V} (k : string) (v : V) (d : list (string * V)) : list (string * V) :=
  match d with
  | [] => [(k, v)]
  | (k', v') :: d' => if String.eqb k' k then (k, v) :: d' else (k', v') :: dict_set k v d'
  end.

(** [a.update(b)] *)
Definition dict_update {V} (a b : list (string * V)) : list (string * V) :=
  fold_left (fun acc kv => dict_set kv.1 kv.2 acc) b a.

(** The local [merge_dicts] of [Domain.merge]. *)
Definition merge_dicts {V} (d1 d2 : list (string * V)) (override_existing_values : bool)
    : list (string * V) :=
  if override_existing_values then dict_update d1 d2 else dict_update d2 d1.

(** The local [merge_lists]: [sorted(list(set(l1 + l2)))]. *)
Definition merge_lists (l1 l2 : list string) : list string :=
  sorted_strings (remove_dups (l1 ++ l2)%list).

(** [list.remove(x)]: drops the first occurrence (called only when [x] occurs). *)
Fixpoint list_remove (x : string) (l : list string) : list string :=
  match l with
  | [] => []
  | y :: l' => if String.eqb y x then l' else y :: list_remove x l'
  end.

(** [for form in forms: if form in actions: actions.remove(form)] *)
Definition remove_forms (forms actions : list string) : list string :=
  fold_left (fun acc f => if decide (f ∈ acc) then list_remove f acc else acc) forms actions.

Definition raw_use_entities (u : UseEntities) : RawUseEntities :=
  match u with UseAll => RawTrue | UseList l => RawList l end.

(** An entry [{k: v}] of [as_dict()["intents"]]. *)
Definition intent_entry (kv : string * IntentProps) : IntentDecl :=
  IntentDict kv.1 (Some (raw_use_entities (use_entities kv.2)))
             (Some (ignore_entities kv.2)) (triggers kv.2).

(** [{list(i.keys())[0]: i for i in combined["intents"]}] *)
Definition intents_by_name (d : Domain) : list (string * IntentDecl) :=
  map (fun kv => (kv.1, intent_entry kv)) (intent_properties d).

(** [Domain._slot_definitions]: the slots by name. *)
Definition slot_definitions (d : Domain) : list (string * Slot) :=
  map (fun s => (slot_name s, s)) (slots d).

(** [Domain.collect_slots]: the slots in the order of their names. *)
Definition collect_slots (slot_dict : list (string * Slot)) : list Slot :=
  map snd (sorted_by fst slot_dict).

(** [Domain.merge(domain, override)] followed by [from_dict]: [None] when the
    merged domain raises [InvalidDomain]. *)
Definition merge (self domain : Domain) (override : bool) : option Domain :=
  let store := if override then store_entities_as_slots domain
               else store_entities_as_slots self in
  let merged_intents := merge_dicts (intents_by_name self) (intents_by_name domain) override in
  let domain_actions := remove_forms (form_names self) (user_actions domain) in
  (Domain_init (map snd merged_intents)
     (merge_lists (entities self) (entities domain))
     (collect_slots (merge_dicts (slot_definitions self) (slot_definitions domain) override))
     (merge_dicts (templates self) (templates domain) override)
     (merge_lists (user_actions self) domain_actions)
     (merge_lists (form_names self) (form_names domain))
     store).1.

Definition domain_a : option Domain :=
  (Domain_init [IntentName "greet"] ["name"] [] [("utter_greet", ["hi"])]
               ["action_search"] ["restaurant_form"] true).1.

Definition domain_b : option Domain :=
  (Domain_init [IntentName "bye"] ["city"] [] [("utter_bye", ["bye"])]
               ["restaurant_form"; "action_pay"] [] true).1.

Definition merge_opt (a b : option Domain) (override : bool) : option Domain :=
  match a, b with Some a, Some b => merge a b override | _, _ => None end.

Definition empty_domain : Domain := mkDomain [] [] [] [] [] [] [] true.

Definition domain_or_empty (o : option Domain) : Domain := default empty_domain o.

Definition domain_a0 : Domain := domain_or_empty domain_a.

Definition domain_c0 : Domain :=
  domain_or_empty
    ((Domain_init [IntentName "bye"] ["city"; "name"] [] [("utter_bye", ["bye"])]
                  ["action_pay"; "action_search"] ["pay_form"] true).1).

Definition inform_domain : Domain := domain_or_empty ambiguous_domain_init.1.

Lemma string_append_assoc (a b c : string) : (a +s+ b) +s+ c = a +s+ b +s+ c.
Proof. induction a as [|x a IH]; [reflexivity|exact (f_equal (String x) IH)]. Qed.

Lemma string_append_empty_r (a : string) : a +s+ "" = a.
Proof. induction a as [|x a IH]; [reflexivity|exact (f_equal (String x) IH)]. Qed.

Section ModelCompatibility.
(** [packaging.version]: an external library; its parse and [<] are left
    abstract. *)
Variable Version : Type.
Variable version_parse : string -> Version.
Variable version_lt : Version -> Version -> bool.
(** [rasa.constants.MINIMUM_COMPATIBLE_VERSION] and [rasa.__version__]. *)
Variable MINIMUM_COMPATIBLE_VERSION : string.
Variable rasa_version : string.

Definition too_old_prefix : string :=
  "The model version is too old to be " +s+
  "loaded by this Rasa Core instance. " +s+
  "Either retrain the model, or run with " +s+
  "an older version. " +s+
  "Model version: ".

Definition too_old_message (model_version version_to_check : string) : string :=
  too_old_prefix +s+ model_version +s+
  " Instance version: " +s+ rasa_version +s+ " " +s+
  "Minimal compatible version: " +s+ version_to_check.

(** [PolicyEnsemble.ensure_model_compatibility]: [inl] is the raised
    [UnsupportedDialogueModelError]. *)
Definition ensure_model_compatibility (metadata : list (string * string))
    (version_to_check : option string) : UnsupportedDialogueModelError + unit :=
  let version_to_check := default MINIMUM_COMPATIBLE_VERSION version_to_check in
  let model_version := default "0.0.0" (dict_get "rasa" metadata) in
  if version_lt (version_parse model_version) (version_parse version_to_check)
  then inl (mkUnsupported (too_old_message model_version version_to_check) model_version)
  else inr tt.

(** C7: the guard raises exactly when the recorded version (["0.0.0"]
    when absent) parses strictly below the required one (the minimum
    compatible version by default); the error carries the recorded
    version, and its message names both the found and the required
    version. *)
Theorem C7_model_version_guard (metadata : list (string * string))
    (version_to_check : option string) :
  let required := default MINIMUM_COMPATIBLE_VERSION version_to_check in
  let found := default "0.0.0" (dict_get "rasa" metadata) in
  ((exists err, ensure_model_compatibility metadata version_to_check = inl err) <->
     version_lt (version_parse found) (version_parse required) = true) /\
  (ensure_model_compatibility metadata version_to_check = inr tt \/
   exists err, ensure_model_compatibility metadata version_to_check = inl err /\
     error_model_version err = found /\
     contains found (error_message err) /\ contains required (error_message err)).
Proof.
  intros required found. unfold ensure_model_compatibility. fold required found.
  destruct (version_lt (version_parse found) (version_parse required)) eqn:E.
  - split; [split; [done|intros _; by eexists]|].
    right. eexists. split; [reflexivity|]. cbn [error_model_version error_message].
    split; [done|]. split.
    + exists too_old_prefix, (" Instance version: " +s+ rasa_version +s+ " " +s+
        "Minimal compatible version: " +s+ required). reflexivity.
    + exists (too_old_prefix +s+ found +s+ " Instance version: " +s+ rasa_version +s+
        " " +s+ "Minimal compatible version: "), "".
      rewrite string_append_empty_r. unfold too_old_message.
      rewrite !string_append_assoc. reflexivity.
  - split; [split; [intros [err H]; discriminate|discriminate]|by left].
Qed.
End ModelCompatibility.

Section Serialise.
(** [MarkdownWriter.generate_entity_md], an external formatter. *)
Variable generate_entity_md : option string -> EntityDict -> string.

Definition serialise_targets (s : EvaluationStore) : list string :=
  action_targets s ++ intent_targets s ++
  map (fun gold => generate_entity_md (dict_get "text" gold) gold) (entity_targets s).

Definition serialise_predictions (s : EvaluationStore) : list string :=
  action_predictions s ++ intent_predictions s ++
  map (fun p => generate_entity_md (dict_get "text" p) p) (entity_predictions s).

Definition serialise (s : EvaluationStore) : list string * list string :=
  pad_lists_to_size (serialise_targets s) (serialise_predictions s) "None".

(** C8: after any sequence of [add_to_store] and [merge_store] calls,
    [serialise] returns targets and predictions of equal length: the
    combined targets and the combined predictions, the shorter one padded
    at its end with ["None"]. *)
Theorem C8_serialise_equal_length (s : EvaluationStore) (ops : list StoreOp) :
  let s' := run_ops s ops in
  length (serialise s').1 = length (serialise s').2 /\
  exists k1 k2,
    (serialise s').1 = (serialise_targets s' ++ replicate k1 "None")%list /\
    (serialise s').2 = (serialise_predictions s' ++ replicate k2 "None")%list /\
    (k1 = 0 \/ k2 = 0).
Proof.
  intros s'. unfold serialise, pad_lists_to_size.
  case_decide; simpl; rewrite ?length_app, ?length_replicate.
  - split; [lia|]. exists 0, (length (serialise_targets s') -
                              length (serialise_predictions s')).
    simpl. rewrite app_nil_r. split; [done|split; [done|by left]].
  - split; [lia|]. exists (length (serialise_predictions s') -
                           length (serialise_targets s')), 0.
    simpl. rewrite app_nil_r. split; [done|split; [done|by right]].
Qed.
End Serialise.


(* ------------------------------------------------------------------ *)
(** ** Domain: looking up actions *)

(** [sep.join(xs)] *)
Fixpoint str_join (sep : string) (xs : list string) : string :=
  match xs with
  | [] => ""
  | [x] => x
  | x :: xs' => x +s+ sep +s+ str_join sep xs'
  end.

(** [Domain.user_actions_and_forms] *)
Definition user_actions_and_forms (d : Domain) : list string :=
  (user_actions d ++ form_names d)%list.

Inductive LookupError :=
| IndexError (message : string)
| NameError (message : string).

(** [Domain._raise_action_not_found_exception] *)
Definition action_not_found (d : Domain) (action_name : string) : LookupError :=
  NameError ("Cannot access action '" +s+ action_name +s+ "', as that name is not a "
             +s+ "registered action for this domain. Available actions are: " +s+ nl
             +s+ str_join nl (map (fun a => tab +s+ " - " +s+ a) (action_names d))).

(** A list comprehension whose element expression may raise. *)
Fixpoint map_err {E A B} (f : A -> E + B) (l : list A) : E + list B :=
  match l with
  | [] => inr []
  | x :: l' =>
      match f x with
      | inl e => inl e
      | inr y => match map_err f l' with inl e => inl e | inr ys => inr (y :: ys) end
      end
  end.

Section ActionLookup.
(** [rasa.core.actions.action.action_from_name] is not part of the sources. *)
Variable Action Endpoint : Type.
Variable action_from_name : string -> Endpoint -> list string -> Action.

(** [Domain.action_for_name] *)
Definition action_for_name (d : Domain) (action_name : string) (ep : Endpoint)
    : LookupError + Action :=
  if decide (action_name ∈ action_names d)
  then inr (action_from_name action_name ep (user_actions_and_forms d))
  else inl (action_not_found d action_name).

(** [Domain.action_for_index] (a Python [int] index may be negative). *)
Definition action_for_index (d : Domain) (index : Z) (ep : Endpoint) : LookupError + Action :=
  if ((Z.of_nat (num_actions d) <=? index) || (index <? 0))%Z
  then inl (IndexError ("Cannot access action at index " +s+ pretty index
                        +s+ ". Domain has " +s+ pretty (num_actions d) +s+ " actions."))
  else match action_names d !! Z.to_nat index with
       | Some a => action_for_name d a ep
       | None => inl (IndexError "")   (* not reached: the index is in range *)
       end.

(** [Domain.actions] *)
Definition actions (d : Domain) (ep : Endpoint) : LookupError + list Action :=
  map_err (fun name => action_for_name d name ep) (action_names d).

End ActionLookup.

(* ------------------------------------------------------------------ *)
(** ** Domain: slots added after construction *)

Definition with_slots (d : Domain) (ss : list Slot) : Domain :=
  mkDomain (intent_properties d) (entities d) ss (templates d) (user_actions d)
           (form_names d) (action_names d) (store_entities_as_slots d).

Section AddedSlots.
(** [UnfeaturizedSlot] ([rasa/core/slots.py]) and the slot and action names
    of [rasa/core/constants.py] are not part of the sources. *)
Variable UnfeaturizedSlot : string -> Slot.
Variable REQUESTED_SLOT : string.
Variables DEFAULT_KNOWLEDGE_BASE_ACTION SLOT_LISTED_ITEMS SLOT_LAST_OBJECT
          SLOT_LAST_OBJECT_TYPE : string.

(** [Domain.add_requested_slot] *)
Definition add_requested_slot (d : Domain) : Domain :=
  if bool_decide (form_names d <> []) &&
     negb (bool_decide (REQUESTED_SLOT ∈ map slot_name (slots d)))
  then with_slots d (slots d ++ [UnfeaturizedSlot REQUESTED_SLOT])%list
  else d.

(** [Domain.add_knowledge_base_slots] (the experimental-feature message goes
    to the logger). *)
Definition add_knowledge_base_slots (d : Domain) : Domain :=
  if decide (DEFAULT_KNOWLEDGE_BASE_ACTION ∈ action_names d) then
    let slot_names := map slot_name (slots d) in
    let knowledge_base_slots := [SLOT_LISTED_ITEMS; SLOT_LAST_OBJECT; SLOT_LAST_OBJECT_TYPE] in
    with_slots d (fold_left (fun ss s => if decide (s ∈ slot_names) then ss
                                         else (ss ++ [UnfeaturizedSlot s])%list)
                            knowledge_base_slots (slots d))
  else d.

End AddedSlots.

(* ------------------------------------------------------------------ *)
(** ** Domain: previous-action state *)

(** [Domain.get_prev_action_states]: [if latest_action:] tests the name's
    truth value. *)
Definition get_prev_action_states (d : Domain) (t : DialogueStateTracker)
    : list (string * Q) :=
  match latest_action_name t with
  | Some latest_action =>
      if str_truthy latest_action then
        let prev_action_name := PREV_PREFIX +s+ latest_action in
        if decide (is_Some (input_state_map d !! prev_action_name))
        then [(prev_action_name, 1%Q)] else []
      else []
  | None => []
  end.

(* ------------------------------------------------------------------ *)
(** ** Domain: warnings against training data *)

Record SymmetricDifference := mkSymDiff {
  in_domain : list string;
  in_training_data : list string }.

(** [Domain._get_symmetric_difference] ([None] is the empty set). *)
Definition get_symmetric_difference (domain_elements : list string)
    (training_data_elements : option (list string)) : SymmetricDifference :=
  let training := default [] training_data_elements in
  mkSymDiff (set_difference domain_elements training)
            (set_difference training domain_elements).

Record DomainWarnings := mkDomainWarnings {
  intent_warnings : SymmetricDifference;
  entity_warnings : SymmetricDifference;
  action_warnings : SymmetricDifference;
  slot_warnings : SymmetricDifference }.

(** [Domain._actions_for_domain_warnings] *)
Definition actions_for_domain_warnings (d : Domain) : list string :=
  filter (fun a => a ∉ default_action_names) (user_actions_and_forms d).

Section DomainWarningsSection.
(** [isinstance(s, UnfeaturizedSlot)]: the slot classes are not part of the
    sources. *)
Variable is_unfeaturized_slot : Slot -> bool.

(** [Domain._slots_for_domain_warnings] *)
Definition slots_for_domain_warnings (d : Domain) : list string :=
  map slot_name (filter (fun s => is_unfeaturized_slot s = false) (slots d)).

(** [Domain.domain_warnings] *)
Definition domain_warnings (d : Domain) (intents' entities' actions' slots'
    : option (list string)) : DomainWarnings :=
  mkDomainWarnings (get_symmetric_difference (intents d) intents')
                   (get_symmetric_difference (entities d) entities')
                   (get_symmetric_difference (actions_for_domain_warnings d) actions')
                   (get_symmetric_difference (slots_for_domain_warnings d) slots').

End DomainWarningsSection.

(* ------------------------------------------------------------------ *)
(** ** Domain: utterance templates *)

(** A variation of an utterance in the domain file: a plain string or a dict. *)
Inductive TemplateVariation :=
| TemplateString (text : string)
| TemplateDict (fields : list (string * string)).

Definition template_string_warning (template_key : string) : string :=
  "Templates should not be strings anymore. Utterance template '" +s+ template_key
  +s+ "' should contain either a '- text: ' or a '- custom: ' attribute to be a proper template.".

Definition template_invalid_message (template_key : string) : string :=
  "Utter template '" +s+ template_key +s+ "' needs to contain either '- text: ' or "
  +s+ "'- custom: ' attribute to be a proper template.".

(** The inner loop of [collect_templates]: the validated variations (or the
    raised [InvalidDomain]) and the warnings emitted so far. *)
Fixpoint collect_variations (template_key : string) (vs : list TemplateVariation)
    (validated : list (list (string * string))) (warnings : list string)
    : (InvalidDomain + list (list (string * string))) * list string :=
  match vs with
  | [] => (inr validated, warnings)
  | TemplateString t :: vs' =>
      collect_variations template_key vs' (validated ++ [[("text", t)]])%list
                         (warnings ++ [template_string_warning template_key])%list
  | TemplateDict f :: vs' =>
      if decide (("text" ∉ map fst f) /\ ("custom" ∉ map fst f))
      then (inl (mkInvalidDomain (template_invalid_message template_key)), warnings)
      else collect_variations template_key vs' (validated ++ [f])%list warnings
  end.

Fixpoint collect_templates_go (yml : list (string * option (list TemplateVariation)))
    (templates : list (string * list (list (string * string)))) (warnings : list string)
    : (InvalidDomain + list (string * list (list (string * string)))) * list string :=
  match yml with
  | [] => (inr templates, warnings)
  | (key, None) :: _ =>
      (inl (mkInvalidDomain ("Utterance '" +s+ key +s+ "' does not have any defined templates.")),
       warnings)
  | (key, Some vs) :: yml' =>
      match collect_variations key vs [] warnings with
      | (inl e, ws) => (inl e, ws)
      | (inr validated, ws) => collect_templates_go yml' (dict_set key validated templates) ws
      end
  end.

(** [Domain.collect_templates]: the result and the warnings emitted; a
    variation [None] in YAML is [None] here. *)
Definition collect_templates (yml : list (string * option (list TemplateVariation)))
    : (InvalidDomain + list (string * list (list (string * string)))) * list string :=
  collect_templates_go yml [] [].

(** The value a variation is validated into. *)
Definition validated_variation (v : TemplateVariation) : list (string * string) :=
  match v with TemplateString t => [("text", t)] | TemplateDict f => f end.

Definition is_string_variation (v : TemplateVariation) : bool :=
  match v with TemplateString _ => true | TemplateDict _ => false end.

(* ------------------------------------------------------------------ *)
(** ** Domain: dumping the intents *)

(** [as_dict()["intents"]]: one [{name: properties}] entry per intent. *)
Definition as_dict_intents (d : Domain) : list IntentDecl :=
  map intent_entry (intent_properties d).

(** An intent of [cleaned_domain()]: [use_entities: True] and an empty
    [ignore_entities] are dropped, and an intent left without keys becomes
    its bare name. *)
Definition cleaned_intent (kv : string * IntentProps) : IntentDecl :=
  let '(name, p) := kv in
  let use := match use_entities p with UseAll => None | UseList l => Some (RawList l) end in
  let ignore := match ignore_entities p with [] => None | l => Some l end in
  match use, ignore, triggers p with
  | None, None, None => IntentName name
  | _, _, _ => IntentDict name use ignore (triggers p)
  end.

(** [cleaned_domain()["intents"]] *)
Definition cleaned_intents (d : Domain) : list IntentDecl :=
  map cleaned_intent (intent_properties d).

(* ------------------------------------------------------------------ *)
(** ** Domain: loading *)

(** [Domain.empty()] *)
Definition Domain_empty : option Domain := (Domain_init [] [] [] [] [] [] true).1.

Section Loading.
(** [Domain.from_path]: reading and parsing a domain file is not modelled. *)
Variable from_path : string -> option Domain.

(** [Domain.load(paths)] for a list of paths: [None] is a raised
    [InvalidDomain] (no path given, a file that fails to load, or a merge
    that fails). *)
Definition Domain_load (paths : list string) : option Domain :=
  match paths with
  | [] => None
  | _ => fold_left (fun domain path => d ← domain; other ← from_path path; merge d other false)
                   paths Domain_empty
  end.

End Loading.

(* ------------------------------------------------------------------ *)
(** ** Domain: slots for entities *)

Inductive SlotValue := SlotValueList (values : list string) | SlotValueOne (value : string).

Record SlotSetEvent := mkSlotSet { slot_key : string; slot_value : SlotValue }.

Inductive KeyError := mkKeyError (key : string).

(** [[e["value"] for e in entities if e["entity"] == name]] *)
Fixpoint matching_entities (name : string) (es : list EntityDict) : KeyError + list string :=
  match es with
  | [] => inr []
  | e :: es' =>
      match dict_get "entity" e with
      | None => inl (mkKeyError "entity")
      | Some n =>
          if String.eqb n name then
            match dict_get "value" e with
            | None => inl (mkKeyError "value")
            | Some v => match matching_entities name es' with
                        | inl err => inl err
                        | inr vs => inr (v :: vs)
                        end
            end
          else matching_entities name es'
      end
  end.

Section SlotsForEntities.
(** [s.auto_fill] and [s.type_name]: the slot classes are not part of the
    sources. *)
Variable slot_auto_fill : Slot -> bool.
Variable slot_type_name : Slot -> string.

Fixpoint slot_events (ss : list Slot) (es : list EntityDict) : KeyError + list SlotSetEvent :=
  match ss with
  | [] => inr []
  | s :: ss' =>
      if slot_auto_fill s then
        match matching_entities (slot_name s) es with
        | inl err => inl err
        | inr vs =>
            match slot_events ss' es with
            | inl err => inl err
            | inr evs =>
                match last vs with
                | None => inr evs
                | Some v =>
                    inr ((if String.eqb (slot_type_name s) "list"
                          then mkSlotSet (slot_name s) (SlotValueList vs)
                          else mkSlotSet (slot_name s) (SlotValueOne v)) :: evs)
                end
            end
        end
      else slot_events ss' es
  end.

(** [Domain.slots_for_entities] *)
Definition slots_for_entities (d : Domain) (es : list EntityDict) : KeyError + list SlotSetEvent :=
  if store_entities_as_slots d then slot_events (slots d) es else inr [].

End SlotsForEntities.

(** The values of the entities named [name], in order. *)
Definition entity_values (name : string) (es : list EntityDict) : list string :=
  omap (fun e => if bool_decide (dict_get "entity" e = Some name) then dict_get "value" e
                 else None) es.

(* ------------------------------------------------------------------ *)
(** ** Ensemble: priorities and persisted directories *)

Fixpoint zdict_get {V} (key : Z) (d : list (Z * V)) : option V :=
  match d with
  | [] => None
  | (k, v) :: d' => if Z.eqb k key then Some v else zdict_get key d'
  end.

(** [priority_dict[k].append(v)] on a [defaultdict(list)]. *)
Fixpoint group_append (k : Z) (v : string) (d : list (Z * list string)) : list (Z * list string) :=
  match d with
  | [] => [(k, [v])]
  | (k', vs) :: d' => if Z.eqb k' k then (k', vs ++ [v])%list :: d' else (k', vs) :: group_append k v d'
  end.

(** The [priority_dict] of [PolicyEnsemble._check_priorities]. *)
Definition priority_dict (ps : list Policy) : list (Z * list string) :=
  fold_left (fun d p => group_append (priority p) (policy_type_name p) d) ps [].

(** The groups [_check_priorities] warns about: [len(v) > 1]. *)
Definition priority_warning_groups (e : SimplePolicyEnsemble) : list (Z * list string) :=
  filter (fun kv => 1 < length kv.2) (priority_dict (policies e)).

(** [str(v)] of a list of strings. *)
Definition str_list_repr (v : list string) : string :=
  "[" +s+ str_join ", " (map (fun s => "'" +s+ s +s+ "'") v) +s+ "]".

(** [PolicyEnsemble._check_priorities]: the warnings it raises. *)
Definition check_priorities (e : SimplePolicyEnsemble) : list string :=
  map (fun kv => "Found policies " +s+ str_list_repr kv.2 +s+ " with same priority "
                 +s+ pretty kv.1 +s+ " in PolicyEnsemble. When personalizing priorities, "
                 +s+ "be sure to give all policies different priorities.")
      (priority_warning_groups e).

(** The directories [PolicyEnsemble.persist] writes the policies to. *)
Definition persist_dir_names (e : SimplePolicyEnsemble) : list string :=
  imap policy_name (policies e).

(** The directories [PolicyEnsemble.load] reads, for the class names the
    metadata's [policy_names] resolve to. *)
Definition load_dir_names (policy_cls_names : list string) : list string :=
  imap (fun i n => "policy_" +s+ pretty i +s+ "_" +s+ n) policy_cls_names.

(* ------------------------------------------------------------------ *)
(** ** Story evaluation *)

(** [EvaluationStore.has_prediction_target_mismatch] *)
Definition has_prediction_target_mismatch (s : EvaluationStore) : bool :=
  negb (bool_decide (intent_predictions s = intent_targets s)) ||
  negb (bool_decide (entity_predictions s = entity_targets s)) ||
  negb (bool_decide (action_predictions s = action_targets s)).

(** An item of the [action_list]. *)
Record ActionItem := mkActionItem {
  item_action : string;
  item_predicted : string;
  item_policy : option string;
  item_confidence : Q }.

(** [a["policy"] and not SimplePolicyEnsemble.is_not_memo_policy(a["policy"])] *)
Definition predicted_by_memo (a : ActionItem) : bool :=
  match item_policy a with
  | Some p => str_truthy p && negb (is_not_memo_policy p)
  | None => false
  end.

(** [_in_training_data_fraction]: [None] is the [ZeroDivisionError] of an
    empty [action_list]. *)
Definition in_training_data_fraction (action_list : list ActionItem) : option Q :=
  let in_training_data := map item_action (filter (fun a => predicted_by_memo a = true) action_list) in
  if decide (length action_list = 0) then None
  else Some (inject_Z (Z.of_nat (length in_training_data)) / inject_Z (Z.of_nat (length action_list)))%Q.

(** [_clean_entity_results] *)
Definition clean_entity (text : string) (r : EntityDict) : EntityDict :=
  fold_left (fun c k => match dict_get k r with
                        | Some v => if decide (k ∈ map fst r) then dict_set k v c else c
                        | None => c
                        end)
            ["start"; "end"; "entity"; "value"] [("text", text)].

Definition clean_entity_results (text : string) (entity_results : list EntityDict) : list EntityDict :=
  map (clean_entity text) entity_results.

Record StoryEvaluation := mkStoryEvaluation {
  evaluation_store : EvaluationStore;
  failed_stories : list DialogueStateTracker;
  action_list : list ActionItem;
  story_in_training_data_fraction : Q }.

Definition empty_store : EvaluationStore := mkStore [] [] [] [] [] [].

Section StoryPredictions.
(** [_predict_tracker_actions] (it runs the agent's processor) and
    [rasa.nlu.test.get_evaluation_metrics] are left abstract; the metrics may
    raise ([None]). *)
Variable predict_tracker_actions :
  DialogueStateTracker -> EvaluationStore * DialogueStateTracker * list ActionItem.
Variable Metrics : Type.
Variable get_evaluation_metrics : list nat -> list nat -> option Metrics.

(** The loop of [collect_story_predictions]: the story store, the failed
    trackers, the [correct_dialogues] flags and the [action_list]. *)
Fixpoint collect_loop (ts : list DialogueStateTracker) (store : EvaluationStore)
    (failed : list DialogueStateTracker) (correct : list nat) (acts : list ActionItem)
    : EvaluationStore * list DialogueStateTracker * list nat * list ActionItem :=
  match ts with
  | [] => (store, failed, correct, acts)
  | t :: ts' =>
      let '(tracker_results, predicted_tracker, tracker_actions) := predict_tracker_actions t in
      let store' := merge_store store tracker_results in
      let acts' := (acts ++ tracker_actions)%list in
      if has_prediction_target_mismatch tracker_results
      then collect_loop ts' store' (failed ++ [predicted_tracker])%list (correct ++ [0]) acts'
      else collect_loop ts' store' failed (correct ++ [1]) acts'
  end.

(** [collect_story_predictions] (logging left out): the story evaluation and
    the number of stories, or [None] when an exception is raised. *)
Definition collect_story_predictions (completed_trackers : list DialogueStateTracker)
    : option (StoryEvaluation * nat) :=
  let number_of_stories := length completed_trackers in
  let '(store, failed, correct, acts) := collect_loop completed_trackers empty_store [] [] [] in
  _ ← get_evaluation_metrics (replicate (length completed_trackers) 1) correct;
  fraction ← in_training_data_fraction acts;
  Some (mkStoryEvaluation store failed acts fraction, number_of_stories).

(** [_evaluate_core_model] after the trackers are generated. *)
Definition evaluate_core_model (completed_trackers : list DialogueStateTracker) : option nat :=
  '(story_eval, number_of_stories) ← collect_story_predictions completed_trackers;
  Some (number_of_stories - length (failed_stories story_eval)).

End StoryPredictions.


(* ================================================================== *)
Definition unfeaturized_slot (n : string) : Slot := mkSlot n 0.

(** A variation that [collect_templates] accepts: a string, or a dict with
    a [text] or a [custom] key. *)
Definition accepted_variation (v : TemplateVariation) : Prop :=
  match v with
  | TemplateString _ => True
  | TemplateDict f => "text" ∈ map fst f \/ "custom" ∈ map fst f
  end.

#[global] Instance accepted_variation_dec v : Decision (accepted_variation v).
Proof. destruct v; simpl; apply _. Defined.

(** The deprecation warnings of one utterance: one per string variation. *)
Definition variation_warnings (key : string) (vs : list TemplateVariation) : list string :=
  concat (map (fun v => if is_string_variation v then [template_string_warning key] else []) vs).

Definition domain_file_no_store : option Domain :=
  (Domain_init [IntentName "bye"] ["city"] [] [("utter_bye", ["bye"])]
               ["action_pay"] [] false).1.

Definition city_slot : Slot := mkSlot "city" 1.

Definition clean_step (r : EntityDict) (c : EntityDict) (k : string) : EntityDict :=
  match dict_get k r with
  | Some v => if decide (k ∈ map fst r) then dict_set k v c else c
  | None => c
  end.

(** A tracker and one listen action predicted for it. *)
Definition listen_item : ActionItem := mkActionItem ACTION_LISTEN_NAME ACTION_LISTEN_NAME None 1%Q.

Definition replay_tracker (t : DialogueStateTracker)
    : EvaluationStore * DialogueStateTracker * list ActionItem :=
  (mkStore [ACTION_LISTEN_NAME] [ACTION_LISTEN_NAME] [] [] [] [], t, [listen_item]).


(** * Properties *)

Example pretty_3 : policy_name 3 (const_policy "TEDPolicy" 1 false []) = "policy_3_TEDPolicy".
Proof. reflexivity. Qed.

Example memo_name : is_not_memo_policy "policy_0_MemoizationPolicy" = false.
Proof. reflexivity. Qed.

Example aug_name : is_not_memo_policy "policy_2_AugmentedMemoizationPolicy" = false.
Proof. reflexivity. Qed.

Example ted_name : is_not_memo_policy "policy_2_TEDPolicy" = true.
Proof. reflexivity. Qed.

Example tie_first :
  probabilities_using_best_policy
    (mkEnsemble [const_policy "A" 1 false [1#2; 1#4; 1#4];
                 const_policy "B" 1 false [1#4; 1#2; 1#4]])
    (mkTracker []) sample_domain
  = Some (Some [1#2; 1#4; 1#4], Some "policy_0_A").
Proof. reflexivity. Qed.

(* ------------------------------------------------------------------ *)
(** ** Facts about the Python helpers *)

Lemma list_set_lookup {A} (l l' : list A) i v :
  list_set l i v = Some l' -> l' !! i = Some v.
Proof.
  unfold list_set. case_decide; intros Hs; inversion Hs; subst.
  by apply list_lookup_insert_eq.
Qed.

Lemma list_set_length {A} (l l' : list A) i v :
  list_set l i v = Some l' -> length l' = length l.
Proof.
  unfold list_set. case_decide; intros Hs; inversion Hs; subst.
  by rewrite length_insert.
Qed.

Lemma tuple_gt_spec c p m b :
  tuple_gt c p m b = true <-> (m < c)%Q \/ ((c == m)%Q /\ (b < p)%Z).
Proof.
  unfold tuple_gt. destruct (Qeq_bool c m) eqn:E.
  - apply Qeq_bool_iff in E. rewrite Z.ltb_lt. split.
    + intros H. by right.
    + intros [H|[_ H]]; [lra|exact H].
  - assert (~ (c == m)%Q) as Hne by (intros H; apply Qeq_bool_iff in H; congruence).
    destruct (Qle_bool c m) eqn:L; simpl.
    + apply Qle_bool_iff in L. split; [discriminate|].
      intros [H|[H _]]; [lra|contradiction].
    + assert (~ (c <= m)%Q) as Hnl by (intros H; apply Qle_bool_iff in H; congruence).
      split; [intros _; left; lra|done].
Qed.

Lemma tuple_gt_false c p m b :
  tuple_gt c p m b = false <-> ~ ((m < c)%Q \/ ((c == m)%Q /\ (b < p)%Z)).
Proof.
  rewrite <- tuple_gt_spec. destruct (tuple_gt c p m b); split; congruence.
Qed.

Lemma tuple_gt_irrefl c p : tuple_gt c p c p = false.
Proof. apply tuple_gt_false. intros [H|[_ H]]; [lra|lia]. Qed.

Lemma tuple_gt_asym c p m b :
  tuple_gt c p m b = true -> tuple_gt m b c p = false.
Proof.
  rewrite tuple_gt_spec, tuple_gt_false. intros [H|[H1 H2]] [H'|[H1' H2']];
    try lra; lia.
Qed.

(** [n > s] and [not (k > s)] give [n > k]. *)
Lemma tuple_gt_trans_le nc np sc sp kc kp :
  tuple_gt nc np sc sp = true -> tuple_gt kc kp sc sp = false ->
  tuple_gt nc np kc kp = true.
Proof.
  rewrite !tuple_gt_spec, tuple_gt_false. intros Hn Hk.
  destruct (Qlt_le_dec kc sc) as [Hlt|Hle].
  - left. destruct Hn as [H|[H _]]; lra.
  - assert (kc == sc)%Q as Heq.
    { destruct (Qlt_le_dec sc kc); [exfalso; apply Hk; by left|lra]. }
    destruct Hn as [H|[H1 H2]].
    + left. lra.
    + right. split; [lra|].
      destruct (Z.lt_ge_cases sp kp); [exfalso; apply Hk; right; split; [exact Heq|lia]|lia].
Qed.

Lemma pretty_N_go_no_underscore x s :
  no_underscore s = true -> no_underscore (pretty_N_go x s) = true.
Proof.
  revert s. induction (N.lt_wf_0 x) as [x _ IH]; intros s Hs.
  assert (x = 0 \/ 0 < x)%N as [->|?] by lia; [by rewrite pretty_N_go_0|].
  rewrite pretty_N_go_step by done. apply IH; [by apply N.div_lt|].
  simpl. rewrite Hs, andb_true_r.
  unfold pretty_N_char. by repeat case_match.
Qed.

Lemma pretty_nat_no_underscore (n : nat) : no_underscore (pretty n) = true.
Proof.
  unfold pretty, pretty_nat, pretty, pretty_N. case_decide; [done|].
  by apply pretty_N_go_no_underscore.
Qed.

Lemma underscore_split a b x y :
  no_underscore a = true -> no_underscore b = true ->
  a +s+ "_" +s+ x = b +s+ "_" +s+ y -> a = b.
Proof.
  revert b. induction a as [|c a IH]; intros [|c' b] Ha Hb H; simpl in *.
  - done.
  - inversion H; subst. by rewrite Ascii.eqb_refl in Hb.
  - inversion H; subst. by rewrite Ascii.eqb_refl in Ha.
  - apply andb_true_iff in Ha as [_ Ha]. apply andb_true_iff in Hb as [_ Hb].
    inversion H; subst. f_equal. by apply IH.
Qed.

Lemma policy_name_index i p j q : policy_name i p = policy_name j q -> i = j.
Proof.
  unfold policy_name. intros H.
  apply (inj (String.append "policy_")) in H.
  apply underscore_split in H; try apply pretty_nat_no_underscore.
  by apply (inj pretty) in H.
Qed.

Lemma best_loop_result (P : list Q -> Prop) t d : forall ps i st st',
  (forall p r, p ∈ ps -> adjusted_probabilities p t d = Some r -> P r) ->
  (forall r, result st = Some r -> P r) ->
  best_loop t d i ps st = Some st' -> forall r, result st' = Some r -> P r.
Proof.
  induction ps as [|p ps IH]; intros i st st' HP Hst Hl; simpl in Hl.
  - by inversion Hl; subst.
  - destruct (best_step t d i p st) as [st1|] eqn:Hs; [|discriminate].
    eapply IH; [intros p' r' Hin Ha'; apply (HP p' r'); [set_solver|done]| |exact Hl].
    unfold best_step in Hs.
    destruct (adjusted_probabilities p t d) as [pr|] eqn:Ha; [|discriminate]; simpl in Hs.
    destruct (np_max pr) as [c|]; [|discriminate]; simpl in Hs.
    destruct (tuple_gt _ _ _ _); inversion Hs; subst; [|done].
    simpl. intros r Hr. inversion Hr; subst. apply (HP p r); [set_solver|done].
Qed.

(** The final answer is the loop's winner, or the override by the first
    fallback policy. *)
Lemma pubp_cases e t d r n :
  probabilities_using_best_policy e t d = Some (Some r, n) ->
  exists st, best_loop t d 0 (policies e) init_best = Some st /\
   ((result st = Some r /\ n = best_policy_name st)
    \/ exists fi fp, first_fallback (policies e) = Some (fi, fp) /\
         fallback_scores fp d = Some r /\ n = Some (policy_name fi fp)).
Proof.
  unfold probabilities_using_best_policy.
  destruct (best_loop t d 0 (policies e) init_best) as [st|]; simpl; [|discriminate].
  intros H. exists st. split; [done|].
  destruct (result st) as [r0|] eqn:Hr; [|discriminate].
  destruct (list_index_q _ _); simpl in H; [|discriminate].
  destruct (index_for_action d ACTION_LISTEN_NAME); simpl in H; [|discriminate].
  destruct (best_policy_name st) as [nm|] eqn:Hn; simpl in H; [|discriminate].
  destruct (_ && _ && _).
  - destruct (first_fallback (policies e)) as [[fi fp]|].
    + destruct (fallback_scores fp d) eqn:Hf; simpl in H; [|discriminate].
      inversion H; subst. right. by exists fi, fp.
    + inversion H; subst. by left.
  - inversion H; subst. by left.
Qed.

Lemma adjusted_rejected p t d X r :
  last_event t = Some (ActionExecutionRejected X) ->
  adjusted_probabilities p t d = Some r ->
  exists i, index_for_action d X = Some i /\ r !! i = Some 0%Q.
Proof.
  unfold adjusted_probabilities. intros -> Ha.
  destruct (index_for_action d X) as [i|]; simpl in Ha; [|discriminate].
  exists i. split; [done|]. by eapply list_set_lookup.
Qed.

Lemma list_index_lt x l i : list_index x l = Some i -> i < length l.
Proof.
  revert i. induction l as [|y l IH]; intros i H; simpl in H; [discriminate|].
  destruct (String.eqb x y); [inversion H; simpl; lia|].
  destruct (list_index x l) as [k|] eqn:E; simpl in H; [|discriminate].
  inversion H; subst. simpl. specialize (IH k eq_refl). lia.
Qed.

Lemma list_index_elem x l : x ∈ l -> exists i, list_index x l = Some i.
Proof.
  induction l as [|y l IH]; intros H; [by apply not_elem_of_nil in H|].
  simpl. destruct (String.eqb x y) eqn:E; [by eexists|].
  apply elem_of_cons in H as [->|H]; [by rewrite String.eqb_refl in E|].
  destruct (IH H) as [i ->]. by eexists.
Qed.

Lemma fallback_scores_some p d :
  fallback_action_name p ∈ action_names d ->
  exists fs, fallback_scores p d = Some fs.
Proof.
  intros H. destruct (list_index_elem _ _ H) as [i Hi].
  unfold fallback_scores, index_for_action. rewrite Hi. simpl.
  unfold list_set. rewrite decide_True; [by eexists|].
  rewrite length_replicate. unfold num_actions. by eapply list_index_lt.
Qed.

(** Specification of the loop: no processed policy beats the final running
    best, and if the running best changed, the policy that set it is
    strictly above every earlier one. *)
Lemma best_loop_spec t d : forall ps i st st',
  best_loop t d i ps st = Some st' ->
  (forall j pj c, ps !! j = Some pj -> policy_key t d pj = Some c ->
     tuple_gt c (priority pj) (max_confidence st') (best_policy_priority st') = false)
  /\ (st' = st \/
      exists w pw r, ps !! w = Some pw /\ adjusted_probabilities pw t d = Some r /\
        np_max r = Some (max_confidence st') /\
        st' = mkBest (Some r) (max_confidence st') (Some (policy_name (i + w) pw)) (priority pw) /\
        tuple_gt (max_confidence st') (priority pw) (max_confidence st) (best_policy_priority st) = true /\
        forall j pj c, j < w -> ps !! j = Some pj -> policy_key t d pj = Some c ->
          tuple_gt (max_confidence st') (priority pw) c (priority pj) = true).
Proof.
  induction ps as [|p ps IH]; intros i st st' Hl; simpl in Hl.
  - inversion Hl; subst. split; [intros j pj c Hj; by rewrite lookup_nil in Hj|by left].
  - destruct (best_step t d i p st) as [st1|] eqn:Hs; [|discriminate].
    destruct (IH _ _ _ Hl) as [HA HB]. clear IH.
    unfold best_step in Hs.
    destruct (adjusted_probabilities p t d) as [pr|] eqn:Ha; [|discriminate]; simpl in Hs.
    destruct (np_max pr) as [c|] eqn:Hc; [|discriminate]; simpl in Hs.
    assert (policy_key t d p = Some c) as Hkp by (unfold policy_key; by rewrite Ha).
    destruct (tuple_gt c (priority p) (max_confidence st) (best_policy_priority st)) eqn:Hb;
      inversion Hs; subst st1; clear Hs.
    + (* the running best becomes policy [p] *)
      split.
      * intros [|j] pj c' Hj Hk; simpl in Hj; [|by eapply HA].
        inversion Hj; subst pj. rewrite Hkp in Hk. inversion Hk; subst c'.
        destruct HB as [->|[w [pw [r [_ [_ [_ [Hst' [Hgt _]]]]]]]]];
          [apply tuple_gt_irrefl|].
        assert (best_policy_priority st' = priority pw) as -> by (rewrite Hst'; reflexivity).
        simpl in Hgt. apply tuple_gt_asym.
        eapply tuple_gt_trans_le; [exact Hgt|apply tuple_gt_irrefl].
      * right. destruct HB as [->|[w [pw [r [Hw [Har [Hr [Hst' [Hgt Hlt]]]]]]]]].
        { exists 0, p, pr. simpl. rewrite Nat.add_0_r. repeat split; try done; intros; lia. }
        exists (S w), pw, r. simpl. rewrite <- plus_n_Sm.
        repeat split; [done|done|done|done| |].
        { eapply tuple_gt_trans_le; [exact Hgt|]. simpl. by apply tuple_gt_asym. }
        intros [|j] pj c' Hj Hj' Hk; simpl in Hj'.
        { inversion Hj'; subst pj. rewrite Hkp in Hk. by inversion Hk; subst. }
        apply (Hlt j pj c'); [lia|done|done].
    + (* the running best is kept *)
      split.
      * intros [|j] pj c' Hj Hk; simpl in Hj; [|by eapply HA].
        inversion Hj; subst pj. rewrite Hkp in Hk. inversion Hk; subst c'.
        destruct HB as [->|[w [pw [r [_ [_ [_ [Hst' [Hgt _]]]]]]]]]; [done|].
        assert (best_policy_priority st' = priority pw) as -> by (rewrite Hst'; reflexivity).
        apply tuple_gt_asym. by eapply tuple_gt_trans_le.
      * destruct HB as [->|[w [pw [r [Hw [Har [Hr [Hst' [Hgt Hlt]]]]]]]]]; [by left|].
        right. exists (S w), pw, r. simpl. rewrite <- plus_n_Sm.
        repeat split; [done|done|done|done|done|].
        intros [|j] pj c' Hj Hj' Hk; simpl in Hj'.
        { inversion Hj'; subst pj. rewrite Hkp in Hk. inversion Hk; subst c'.
          by eapply tuple_gt_trans_le. }
        apply (Hlt j pj c'); [lia|done|done].
Qed.

Example override_fires :
  probabilities_using_best_policy sample_ensemble tracker_after_user sample_domain
  = Some (Some [0; 1; 0]%Q, Some "policy_1_FallbackPolicy").
Proof. reflexivity. Qed.

(* ------------------------------------------------------------------ *)
(** ** Arbitration: claims *)

(** C1 (counterexample): the claim "when the last event rejects action X, the
    returned distribution is 0 at X's index whatever the policies output" is
    false: the fallback override returns the fallback policy's fixed
    distribution, which is 1 at the fallback action even when that action
    was the one just rejected. *)
Lemma C1_rejected_fallback_counterexample :
  ~ (forall e t d X r n,
       last_event t = Some (ActionExecutionRejected X) ->
       X ∈ action_names d ->
       probabilities_using_best_policy e t d = Some (Some r, n) ->
       exists i q, index_for_action d X = Some i /\ r !! i = Some q /\ (q == 0)%Q).
Proof.
  intros H.
  destruct (H sample_ensemble tracker_fallback_rejected sample_domain
              "action_default_fallback" [0; 1; 0]%Q (Some "policy_1_FallbackPolicy"))
    as [i [q [Hi [Hq Hz]]]].
  - reflexivity.
  - unfold sample_domain; simpl. set_solver.
  - reflexivity.
  - vm_compute in Hi. inversion Hi; subst i. vm_compute in Hq. inversion Hq; subst q.
    vm_compute in Hz. discriminate.
Qed.

(** C1 (amended): when the last event rejects action X and the call returns
    a distribution [r] with name [n], let [wr] and [wn] be the loop's winning
    distribution and name (each policy's distribution zeroed at X). If the
    override did not fire (it fires when the first index of the top
    probability is the listen index, the latest action is listen, the winner
    is not a memoization-family policy and a fallback policy is present),
    the result is the winner's, 0 at X's index. If it fired, the result is
    the first fallback policy's fixed fallback distribution and identifier,
    1 at the fallback action (whether or not that action is X). *)
Theorem C1_rejected_action_zeroed_unless_fallback e t d X r n :
  last_event t = Some (ActionExecutionRejected X) ->
  probabilities_using_best_policy e t d = Some (Some r, n) ->
  exists st wr wn,
    best_loop t d 0 (policies e) init_best = Some st /\
    result st = Some wr /\ best_policy_name st = Some wn /\
    let fired := list_index_q (max_confidence st) wr = index_for_action d ACTION_LISTEN_NAME /\
                 latest_action_name t = Some ACTION_LISTEN_NAME /\
                 is_not_memo_policy wn = true /\
                 first_fallback (policies e) <> None in
    (~ fired -> r = wr /\ n = Some wn /\
                exists i, index_for_action d X = Some i /\ r !! i = Some 0%Q) /\
    (fired -> exists fi fp j, first_fallback (policies e) = Some (fi, fp) /\
                fallback_scores fp d = Some r /\ n = Some (policy_name fi fp) /\
                index_for_action d (fallback_action_name fp) = Some j /\
                r !! j = Some 1%Q).
Proof.
  intros Hlast H. unfold probabilities_using_best_policy in H.
  destruct (best_loop t d 0 (policies e) init_best) as [st|] eqn:Hl; simpl in H;
    [|discriminate].
  destruct (result st) as [wr|] eqn:Hr; [|discriminate].
  assert (Hz : exists i, index_for_action d X = Some i /\ wr !! i = Some 0%Q).
  { apply (best_loop_result
      (fun r => exists i, index_for_action d X = Some i /\ r !! i = Some 0%Q)
      t d (policies e) 0 init_best st); [|intros ? Hx; discriminate Hx|exact Hl|exact Hr].
    intros p r' _ Ha. by eapply adjusted_rejected. }
  destruct (list_index_q (max_confidence st) wr) as [top|] eqn:Ht; simpl in H;
    [|discriminate].
  destruct (index_for_action d ACTION_LISTEN_NAME) as [li|] eqn:Hli; simpl in H;
    [|discriminate].
  destruct (best_policy_name st) as [wn|] eqn:Hn; simpl in H; [|discriminate].
  exists st, wr, wn. split; [done|]. split; [done|]. split; [done|]. cbv zeta.
  lazymatch type of H with
  | context [if ?c then _ else _] => destruct c eqn:Hc
  end.
  - apply andb_prop in Hc as [Hc Hm]. apply andb_prop in Hc as [Heq Hb].
    apply Nat.eqb_eq in Heq. apply bool_decide_eq_true in Hb. subst li.
    destruct (first_fallback (policies e)) as [[fi fp]|] eqn:Hf.
    + destruct (fallback_scores fp d) as [fs|] eqn:Hfs; simpl in H; [|discriminate].
      inversion H; subst. split.
      * intros Hnf. exfalso. apply Hnf. repeat split; [done|done|done|discriminate].
      * intros _. exists fi, fp. pose proof Hfs as Hfs0. unfold fallback_scores in Hfs.
        destruct (index_for_action d (fallback_action_name fp)) as [j|] eqn:Hj;
          simpl in Hfs; [|discriminate].
        exists j. split; [done|]. split; [exact Hfs0|]. split; [done|]. split; [done|].
        by eapply list_set_lookup.
    + inversion H; subst. split; [intros _; done|].
      intros [_ [_ [_ Hff]]]. by destruct Hff.
  - inversion H; subst. split; [intros _; done|].
    intros [Htl [Hlat [Hm _]]]. rewrite Ht in Htl. injection Htl as ->.
    rewrite Nat.eqb_refl, Hm, bool_decide_eq_true_2 in Hc by done. discriminate.
Qed.

(** Two runs of [sample_ensemble] on [sample_domain]: rejecting the fallback
    action after [utter_greet] zeroes the TED policy's raw 0.1 there and no
    override fires; rejecting it right after a user message fires the
    override, which returns 1 at the rejected fallback action. *)
Lemma C1_rejected_action_zeroed_unless_fallback_witness :
  (predict_action_probabilities ted_policy tracker_greet_fallback_rejected sample_domain !! 1
     = Some (1#10)%Q /\
   last_event tracker_greet_fallback_rejected
     = Some (ActionExecutionRejected "action_default_fallback") /\
   probabilities_using_best_policy sample_ensemble tracker_greet_fallback_rejected sample_domain
     = Some (Some [9#10; 0; 0]%Q, Some "policy_0_TEDPolicy") /\
   exists st wr wn,
    best_loop tracker_greet_fallback_rejected sample_domain 0 (policies sample_ensemble)
      init_best = Some st /\
    result st = Some wr /\ best_policy_name st = Some wn /\
    let fired := list_index_q (max_confidence st) wr
                 = index_for_action sample_domain ACTION_LISTEN_NAME /\
                 latest_action_name tracker_greet_fallback_rejected = Some ACTION_LISTEN_NAME /\
                 is_not_memo_policy wn = true /\
                 first_fallback (policies sample_ensemble) <> None in
    (~ fired -> [9#10; 0; 0]%Q = wr /\ Some "policy_0_TEDPolicy" = Some wn /\
       exists i, index_for_action sample_domain "action_default_fallback" = Some i /\
                 [9#10; 0; 0]%Q !! i = Some 0%Q) /\
    (fired -> exists fi fp j, first_fallback (policies sample_ensemble) = Some (fi, fp) /\
       fallback_scores fp sample_domain = Some [9#10; 0; 0]%Q /\
       Some "policy_0_TEDPolicy" = Some (policy_name fi fp) /\
       index_for_action sample_domain (fallback_action_name fp) = Some j /\
       [9#10; 0; 0]%Q !! j = Some 1%Q)) /\
  (last_event tracker_fallback_rejected
     = Some (ActionExecutionRejected "action_default_fallback") /\
   probabilities_using_best_policy sample_ensemble tracker_fallback_rejected sample_domain
     = Some (Some [0; 1; 0]%Q, Some "policy_1_FallbackPolicy") /\
   exists st wr wn,
    best_loop tracker_fallback_rejected sample_domain 0 (policies sample_ensemble)
      init_best = Some st /\
    result st = Some wr /\ best_policy_name st = Some wn /\
    let fired := list_index_q (max_confidence st) wr
                 = index_for_action sample_domain ACTION_LISTEN_NAME /\
                 latest_action_name tracker_fallback_rejected = Some ACTION_LISTEN_NAME /\
                 is_not_memo_policy wn = true /\
                 first_fallback (policies sample_ensemble) <> None in
    (~ fired -> [0; 1; 0]%Q = wr /\ Some "policy_1_FallbackPolicy" = Some wn /\
       exists i, index_for_action sample_domain "action_default_fallback" = Some i /\
                 [0; 1; 0]%Q !! i = Some 0%Q) /\
    (fired -> exists fi fp j, first_fallback (policies sample_ensemble) = Some (fi, fp) /\
       fallback_scores fp sample_domain = Some [0; 1; 0]%Q /\
       Some "policy_1_FallbackPolicy" = Some (policy_name fi fp) /\
       index_for_action sample_domain (fallback_action_name fp) = Some j /\
       [0; 1; 0]%Q !! j = Some 1%Q)).
Proof.
  split.
  - assert (H1 : last_event tracker_greet_fallback_rejected
                 = Some (ActionExecutionRejected "action_default_fallback")) by reflexivity.
    assert (H2 : probabilities_using_best_policy sample_ensemble
                   tracker_greet_fallback_rejected sample_domain
                 = Some (Some [9#10; 0; 0]%Q, Some "policy_0_TEDPolicy")) by reflexivity.
    split; [reflexivity|]. split; [exact H1|]. split; [exact H2|].
    exact (C1_rejected_action_zeroed_unless_fallback _ _ _ _ _ _ H1 H2).
  - assert (H1 : last_event tracker_fallback_rejected
                 = Some (ActionExecutionRejected "action_default_fallback")) by reflexivity.
    assert (H2 : probabilities_using_best_policy sample_ensemble
                   tracker_fallback_rejected sample_domain
                 = Some (Some [0; 1; 0]%Q, Some "policy_1_FallbackPolicy")) by reflexivity.
    split; [exact H1|]. split; [exact H2|].
    exact (C1_rejected_action_zeroed_unless_fallback _ _ _ _ _ _ H1 H2).
Defined.

(** C2: after a user message (latest action "listen"), when the winner of
    the loop is not a memoization-family policy and the first index of its
    top probability is the "listen" index, and a fallback policy is present
    (its fallback action in the domain), the call returns the first fallback
    policy's fixed fallback distribution and that policy's identifier, which
    differs from the winner's identifier when the winner is another
    policy. *)
Theorem C2_listen_after_listen_triggers_fallback e t d st r wn fi fp :
  latest_action_name t = Some ACTION_LISTEN_NAME ->
  best_loop t d 0 (policies e) init_best = Some st ->
  result st = Some r ->
  best_policy_name st = Some wn ->
  is_not_memo_policy wn = true ->
  ACTION_LISTEN_NAME ∈ action_names d ->
  list_index_q (max_confidence st) r = index_for_action d ACTION_LISTEN_NAME ->
  first_fallback (policies e) = Some (fi, fp) ->
  fallback_action_name fp ∈ action_names d ->
  exists fs, fallback_scores fp d = Some fs /\
    probabilities_using_best_policy e t d = Some (Some fs, Some (policy_name fi fp)) /\
    (forall w pw, wn = policy_name w pw -> w <> fi -> policy_name fi fp <> wn).
Proof.
  intros Hlat Hl Hr Hn Hmemo Hlisten Htop Hfb Hfa.
  destruct (fallback_scores_some _ _ Hfa) as [fs Hfs].
  destruct (list_index_elem _ _ Hlisten) as [li Hli].
  exists fs. split; [done|]. split.
  - unfold probabilities_using_best_policy. rewrite Hl. simpl. rewrite Hr.
    unfold index_for_action in Htop. rewrite Htop. unfold index_for_action. rewrite Hli.
    simpl. rewrite Hn. simpl. rewrite Nat.eqb_refl, Hmemo, Hlat.
    rewrite bool_decide_eq_true_2 by done. simpl. by rewrite Hfb, Hfs.
  - intros w pw -> Hne Heq. apply Hne. symmetry. by eapply policy_name_index.
Qed.

Lemma C2_listen_after_listen_triggers_fallback_witness :
  exists fs, fallback_scores fallback_policy sample_domain = Some fs /\
    probabilities_using_best_policy sample_ensemble tracker_after_user sample_domain
      = Some (Some fs, Some (policy_name 1 fallback_policy)) /\
    (forall w pw, "policy_0_TEDPolicy" = policy_name w pw -> w <> 1 ->
       policy_name 1 fallback_policy <> "policy_0_TEDPolicy").
Proof.
  apply (C2_listen_after_listen_triggers_fallback sample_ensemble tracker_after_user
           sample_domain (mkBest (Some [9#10; 1#10; 0]%Q) (9#10) (Some "policy_0_TEDPolicy") 1)
           [9#10; 1#10; 0]%Q "policy_0_TEDPolicy" 1 fallback_policy);
    try reflexivity; unfold sample_domain; simpl; set_solver.
Defined.

(** C3: the loop selects the winner by Python's strict tuple comparison
    [(max(distribution), priority) > (max_confidence, best_priority)] over
    the policies in configured order: the winner [w] beats every earlier
    policy strictly (so no earlier policy ties with it on both confidence
    and priority), and no later policy beats it. *)
Theorem C3_winner_by_strict_lexicographic_key e t d st r :
  best_loop t d 0 (policies e) init_best = Some st ->
  result st = Some r ->
  exists w pw, policies e !! w = Some pw /\
    best_policy_name st = Some (policy_name w pw) /\
    adjusted_probabilities pw t d = Some r /\
    policy_key t d pw = Some (max_confidence st) /\
    best_policy_priority st = priority pw /\
    (forall j pj c, j < w -> policies e !! j = Some pj -> policy_key t d pj = Some c ->
       tuple_gt (max_confidence st) (priority pw) c (priority pj) = true /\
       ~ ((c == max_confidence st)%Q /\ priority pj = priority pw)) /\
    (forall j pj c, w < j -> policies e !! j = Some pj -> policy_key t d pj = Some c ->
       tuple_gt c (priority pj) (max_confidence st) (priority pw) = false).
Proof.
  intros Hl Hr. destruct (best_loop_spec _ _ _ _ _ _ Hl) as [HA [->|HB]]; [discriminate|].
  destruct HB as [w [pw [r' [Hw [Ha [Hm [Hst [_ Hlt]]]]]]]].
  assert (r' = r) as ->.
  { rewrite Hst in Hr. simpl in Hr. by inversion Hr. }
  exists w, pw. split; [done|].
  assert (best_policy_name st = Some (policy_name w pw)) as Hn by (rewrite Hst; reflexivity).
  assert (best_policy_priority st = priority pw) as Hp by (rewrite Hst; reflexivity).
  split; [done|]. split; [done|].
  split; [unfold policy_key; by rewrite Ha|]. split; [done|]. split.
  - intros j pj c Hj Hpj Hk. specialize (Hlt j pj c Hj Hpj Hk). split; [done|].
    apply tuple_gt_spec in Hlt. intros [Hc Hpr]. destruct Hlt as [H|[_ H]]; [lra|lia].
  - intros j pj c _ Hpj Hk. rewrite <- Hp. by eapply HA.
Qed.

Lemma C3_winner_by_strict_lexicographic_key_witness :
  exists w pw, policies tie_ensemble !! w = Some pw /\
    Some "policy_0_A" = Some (policy_name w pw) /\
    adjusted_probabilities pw (mkTracker []) sample_domain = Some [1#2; 1#4; 1#4]%Q /\
    policy_key (mkTracker []) sample_domain pw = Some (1#2) /\
    1%Z = priority pw /\
    (forall j pj c, j < w -> policies tie_ensemble !! j = Some pj ->
       policy_key (mkTracker []) sample_domain pj = Some c ->
       tuple_gt (1#2) (priority pw) c (priority pj) = true /\
       ~ ((c == 1#2)%Q /\ priority pj = priority pw)) /\
    (forall j pj c, w < j -> policies tie_ensemble !! j = Some pj ->
       policy_key (mkTracker []) sample_domain pj = Some c ->
       tuple_gt c (priority pj) (1#2) (priority pw) = false).
Proof.
  apply (C3_winner_by_strict_lexicographic_key tie_ensemble (mkTracker []) sample_domain
           (mkBest (Some [1#2; 1#4; 1#4]%Q) (1#2) (Some "policy_0_A") 1));
    reflexivity.
Defined.

(** C10: with an empty policy list the call returns [(None, None)] and
    raises nothing, for every tracker and domain. *)
Theorem C10_empty_ensemble_returns_none t d :
  probabilities_using_best_policy (mkEnsemble []) t d = Some (None, None).
Proof. reflexivity. Qed.

Example greet_states :
  input_states greet_domain =
  ["intent_greet"; "entity_name"; "slot_name_0"; "prev_action_listen";
   "prev_utter_greet"].
Proof. reflexivity. Qed.

Example greet_index : index_of_state greet_domain "slot_name_0" = Some 2.
Proof. reflexivity. Qed.

Example greet_changed :
  compare_with_specification greet_domain
    (mkSpecification ["intent_greet"; "entity_name"; "prev_action_listen";
                      "prev_utter_greet"; "intent_bye"])
  = inl (mkInvalidDomain (specification_changed_message "intent_bye" "slot_name_0")).
Proof. reflexivity. Qed.

Lemma enumerate_map_notin l : forall i m s,
  s ∉ l -> enumerate_map i l m !! s = m !! s.
Proof.
  induction l as [|f l IH]; intros i m s Hs; simpl; [done|].
  rewrite IH by set_solver. apply lookup_insert_ne. set_solver.
Qed.

Lemma enumerate_map_in l : forall i m s,
  s ∈ l -> exists k, enumerate_map i l m !! s = Some (i + k) /\ l !! k = Some s.
Proof.
  induction l as [|f l IH]; intros i m s Hs; [by apply not_elem_of_nil in Hs|simpl].
  destruct (decide (s ∈ l)) as [Hin|Hnin].
  - destruct (IH (S i) (<[f:=i]> m) s Hin) as [k [Hk Hl]].
    exists (S k). rewrite Hk, <- plus_n_Sm. by split.
  - apply elem_of_cons in Hs as [->|Hs]; [|contradiction].
    exists 0. rewrite enumerate_map_notin by done.
    rewrite lookup_insert_eq, Nat.add_0_r. by split.
Qed.

Lemma elem_of_set_difference a b x :
  x ∈ set_difference a b <-> x ∈ a /\ x ∉ b.
Proof.
  unfold set_difference. rewrite elem_of_remove_dups, list_elem_of_filter. tauto.
Qed.

(** C9: [num_states] is the length of [input_states]; [index_of_state]
    gives a position in [[0, num_states)] holding that state name for every
    state of [input_states], and [None] for every other name. *)
Theorem C9_index_of_state_in_range (d : Domain) :
  length (input_states d) = num_states d /\
  (forall s, s ∈ input_states d ->
     exists k, index_of_state d s = Some k /\ k < num_states d /\
               input_states d !! k = Some s) /\
  (forall s, s ∉ input_states d -> index_of_state d s = None).
Proof.
  split; [reflexivity|]. split.
  - intros s Hs. destruct (enumerate_map_in (input_states d) 0 ∅ s Hs) as [k [Hk Hl]].
    exists k. unfold index_of_state, input_state_map. rewrite Hk. simpl.
    split; [done|]. split; [|done]. unfold num_states. by eapply lookup_lt_Some.
  - intros s Hs. unfold index_of_state, input_state_map.
    rewrite enumerate_map_notin by done. apply lookup_empty.
Qed.

(** C5: [compare_with_specification] returns [True] exactly when the
    recorded state list and [input_states] are equal as sets; otherwise it
    raises [InvalidDomain] whose message lists (comma-joined, without
    repetitions) exactly the removed states (recorded, no longer present)
    and exactly the added states (present, not recorded). *)
Theorem C5_specification_mismatch_reported (d : Domain) (loaded : DomainSpecification) :
  (compare_with_specification d loaded = inr true <->
     forall x, x ∈ spec_states loaded <-> x ∈ input_states d) /\
  (compare_with_specification d loaded = inr true \/
   exists removed added,
     NoDup removed /\ NoDup added /\
     (forall x, x ∈ removed <-> x ∈ spec_states loaded /\ x ∉ input_states d) /\
     (forall x, x ∈ added <-> x ∈ input_states d /\ x ∉ spec_states loaded) /\
     compare_with_specification d loaded =
       inl (mkInvalidDomain (specification_changed_message
              (String.concat "," removed) (String.concat "," added)))).
Proof.
  unfold compare_with_specification.
  destruct (bool_decide_reflect (spec_states loaded ⊆ input_states d /\
                                 input_states d ⊆ spec_states loaded)) as [[H1 H2]|Hne].
  - split; [|by left]. split; [|done]. intros _ x. split; [apply H1|apply H2].
  - split.
    + split; [discriminate|]. intros Heq. exfalso. apply Hne.
      split; intros x Hx; by apply Heq.
    + right. eexists _, _. split; [apply NoDup_remove_dups|].
      split; [apply NoDup_remove_dups|].
      split; [intros x; apply elem_of_set_difference|].
      split; [intros x; apply elem_of_set_difference|]. reflexivity.
Qed.

Example store_padded :
  serialise (fun _ _ => "[e]") (run_ops (mkStore [] [] [] [] [] [])
     [AddToStore (Items ["utter_greet"; "action_listen"]) (OneItem "utter_greet")
                 NoArg (OneItem "greet") NoArg NoArg; MergeStoreSelf])
  = (["utter_greet"; "utter_greet"; "greet"; "greet"],
     ["utter_greet"; "action_listen"; "utter_greet"; "action_listen"]).
Proof. reflexivity. Qed.

Example inform_featurized :
  match ambiguous_domain_init.1 with
  | Some d => get_featurized_entities d inform_message
  | None => ([], [])
  end = (["city"], [AmbiguousEntitiesWarning ["date"] (Some "inform")]).
Proof. reflexivity. Qed.

Example merge_ab_actions :
  option_map user_actions (merge_opt domain_a domain_b false)
  = Some ["action_pay"; "action_search"; "utter_bye"; "utter_greet"].
Proof. reflexivity. Qed.

(* ------------------------------------------------------------------ *)
(** ** Facts on merging *)

Lemma insert_by_elem {A} (key : A -> string) (x y : A) (l : list A) :
  x ∈ insert_by key y l <-> x = y \/ x ∈ l.
Proof.
  induction l as [|z l IH]; simpl.
  - rewrite list_elem_of_singleton, elem_of_nil. tauto.
  - destruct (String.ltb (key y) (key z)).
    + rewrite !elem_of_cons. tauto.
    + rewrite !elem_of_cons, IH. tauto.
Qed.

Lemma fold_insert_by_elem {A} (key : A -> string) (x : A) (l acc : list A) :
  x ∈ fold_left (fun acc y => insert_by key y acc) l acc <-> x ∈ acc \/ x ∈ l.
Proof.
  revert acc. induction l as [|y l IH]; intros acc; simpl.
  - rewrite elem_of_nil. tauto.
  - rewrite IH, insert_by_elem, elem_of_cons. tauto.
Qed.

Lemma sorted_by_elem {A} (key : A -> string) (x : A) (l : list A) :
  x ∈ sorted_by key l <-> x ∈ l.
Proof.
  unfold sorted_by. rewrite fold_insert_by_elem, elem_of_nil. tauto.
Qed.

Lemma merge_lists_elem (l1 l2 : list string) x :
  x ∈ merge_lists l1 l2 <-> x ∈ l1 \/ x ∈ l2.
Proof.
  unfold merge_lists, sorted_strings.
  rewrite sorted_by_elem, elem_of_remove_dups, elem_of_app. tauto.
Qed.

Lemma list_remove_sub x y l : x ∈ list_remove y l -> x ∈ l.
Proof.
  induction l as [|z l IH]; simpl; [done|].
  destruct (String.eqb z y); rewrite ?elem_of_cons; [tauto|].
  intros [->|H]; [by left| right; auto].
Qed.

Lemma list_remove_keep x y l : x ∈ l -> x <> y -> x ∈ list_remove y l.
Proof.
  induction l as [|z l IH]; simpl; [done|].
  rewrite elem_of_cons. intros Hx Hne.
  destruct (String.eqb z y) eqn:E.
  - apply String.eqb_eq in E as ->. destruct Hx as [->|Hx]; [congruence|done].
  - rewrite elem_of_cons. tauto.
Qed.

Lemma remove_forms_sub forms actions x :
  x ∈ remove_forms forms actions -> x ∈ actions.
Proof.
  unfold remove_forms. revert actions.
  induction forms as [|f forms IH]; intros actions; simpl; [done|].
  intros H. apply IH in H. case_decide; [by eapply list_remove_sub|done].
Qed.

Lemma remove_forms_keep forms actions x :
  x ∈ actions -> x ∉ forms -> x ∈ remove_forms forms actions.
Proof.
  unfold remove_forms. revert actions.
  induction forms as [|f forms IH]; intros actions Hx Hf; simpl; [done|].
  rewrite elem_of_cons in Hf. apply IH; [|tauto].
  case_decide; [|done]. apply list_remove_keep; [done|]. intros ->; tauto.
Qed.

Lemma dict_set_keys {V} (k : string) (v : V) (d : list (string * V)) x :
  x ∈ map fst (dict_set k v d) <-> x = k \/ x ∈ map fst d.
Proof.
  induction d as [|[k' v'] d IH]; simpl.
  - rewrite list_elem_of_singleton, elem_of_nil. tauto.
  - destruct (String.eqb k' k) eqn:E.
    + apply String.eqb_eq in E as ->. simpl. rewrite !elem_of_cons. tauto.
    + simpl. rewrite !elem_of_cons, IH. tauto.
Qed.

Lemma dict_update_keys {V} (a b : list (string * V)) x :
  x ∈ map fst (dict_update a b) <-> x ∈ map fst a \/ x ∈ map fst b.
Proof.
  unfold dict_update. revert a.
  induction b as [|[k v] b IH]; intros a; simpl.
  - rewrite elem_of_nil. tauto.
  - rewrite IH, dict_set_keys, elem_of_cons. simpl. tauto.
Qed.

(** Whatever the override flag, the merged dict has the keys of both. *)
Lemma merge_dicts_keys {V} (d1 d2 : list (string * V)) ov x :
  x ∈ map fst (merge_dicts d1 d2 ov) <-> x ∈ map fst d1 \/ x ∈ map fst d2.
Proof. unfold merge_dicts. destruct ov; rewrite dict_update_keys; tauto. Qed.

Lemma combine_with_templates_elem actions templates x :
  x ∈ combine_with_templates actions templates <-> x ∈ actions \/ x ∈ map fst templates.
Proof.
  unfold combine_with_templates, sorted_strings.
  rewrite elem_of_app, list_elem_of_filter, sorted_by_elem.
  destruct (decide (x ∈ actions)); tauto.
Qed.

Lemma combine_user_with_default_actions_elem user x :
  x ∈ combine_user_with_default_actions user <-> x ∈ default_action_names \/ x ∈ user.
Proof.
  unfold combine_user_with_default_actions.
  rewrite elem_of_app, list_elem_of_filter.
  destruct (decide (x ∈ default_action_names)); tauto.
Qed.

Lemma Domain_init_some intents ents slots templates actions forms store d :
  (Domain_init intents ents slots templates actions forms store).1 = Some d ->
  user_actions d = combine_with_templates actions templates /\
  form_names d = forms /\ entities d = ents /\
  action_names d =
    (combine_user_with_default_actions (combine_with_templates actions templates)
     ++ forms)%list /\
  NoDup (action_names d).
Proof.
  unfold Domain_init. simpl.
  destruct (collect_intent_properties intents) as [props|]; simpl; [|discriminate].
  destruct (check_domain_sanity _) eqn:Hs; [|discriminate].
  intros [= <-]. simpl. unfold check_domain_sanity in Hs. simpl in Hs.
  apply andb_true_iff in Hs as [Hs _]. apply andb_true_iff in Hs as [Hs _].
  apply andb_true_iff in Hs as [Hs _]. apply bool_decide_eq_true in Hs.
  repeat split; done.
Qed.

(** A valid domain never has a user action that is also a form. *)
Lemma user_action_not_form d intents ents slots templates actions forms store x :
  (Domain_init intents ents slots templates actions forms store).1 = Some d ->
  x ∈ user_actions d -> x ∉ form_names d.
Proof.
  intros H. destruct (Domain_init_some _ _ _ _ _ _ _ _ H) as (Hu & Hf & _ & Ha & Hnd).
  rewrite Ha in Hnd. rewrite Hu, Hf. intros Hx Hx'.
  apply NoDup_app in Hnd as (_ & Hdis & _).
  apply (Hdis x); [|done].
  apply combine_user_with_default_actions_elem. by right.
Qed.

Lemma merge_some A B ov AB :
  merge A B ov = Some AB ->
  (forall x, x ∈ user_actions AB <->
     x ∈ user_actions A \/ x ∈ remove_forms (form_names A) (user_actions B) \/
     x ∈ map fst (templates A) \/ x ∈ map fst (templates B)) /\
  (forall x, x ∈ form_names AB <-> x ∈ form_names A \/ x ∈ form_names B) /\
  (forall x, x ∈ entities AB <-> x ∈ entities A \/ x ∈ entities B) /\
  (forall x, x ∈ action_names AB <->
     x ∈ default_action_names \/ x ∈ user_actions AB \/ x ∈ form_names AB) /\
  (forall x, x ∈ user_actions AB -> x ∉ form_names AB).
Proof.
  unfold merge. intros H.
  pose proof (fun x => user_action_not_form _ _ _ _ _ _ _ _ x H) as Hnf.
  apply Domain_init_some in H as (Hu & Hf & He & Ha & _).
  repeat split.
  - rewrite Hu, combine_with_templates_elem, merge_lists_elem, merge_dicts_keys. tauto.
  - rewrite Hu, combine_with_templates_elem, merge_lists_elem, merge_dicts_keys. tauto.
  - by rewrite Hf, merge_lists_elem.
  - by rewrite Hf, merge_lists_elem.
  - by rewrite He, merge_lists_elem.
  - by rewrite He, merge_lists_elem.
  - rewrite Ha, Hf, elem_of_app, combine_user_with_default_actions_elem, <- Hu. tauto.
  - rewrite Ha, Hf, elem_of_app, combine_user_with_default_actions_elem, <- Hu. tauto.
  - done.
Qed.

Lemma merge_user_actions_sub A B AB BA ov1 ov2 x :
  merge A B ov1 = Some AB -> merge B A ov2 = Some BA ->
  x ∈ user_actions AB -> x ∈ user_actions BA.
Proof.
  intros H1 H2.
  destruct (merge_some _ _ _ _ H1) as (Hu1 & Hf1 & _ & _ & Hnf1).
  destruct (merge_some _ _ _ _ H2) as (Hu2 & _ & _ & _ & _).
  intros Hx. rewrite Hu2. pose proof Hx as Hx'. rewrite Hu1 in Hx'.
  destruct Hx' as [HA|[HB|[HT|HT]]]; [|left; by eapply remove_forms_sub|tauto|tauto].
  right; left. apply remove_forms_keep; [done|].
  intros HF. apply (Hnf1 x Hx). apply Hf1. by right.
Qed.

Lemma collect_intent_properties_go_some acc decls :
  NoDup (map fst acc ++ map decl_name decls)%list ->
  exists props, collect_intent_properties_go acc decls = Some props.
Proof.
  revert acc. induction decls as [|i decls IH]; intros acc Hnd; simpl; [by eexists|].
  assert (Hn : (normalise_intent i).1 = decl_name i) by (by destruct i).
  destruct (normalise_intent i) as [n p] eqn:E. simpl in Hn. subst n.
  rewrite decide_False.
  - apply IH. rewrite map_app. simpl. rewrite <- (assoc_L app). exact Hnd.
  - intros Hin. apply NoDup_app in Hnd as (_ & Hdis & _).
    apply (Hdis (decl_name i) Hin). simpl. by left.
Qed.

(** C4: whenever [A.merge(B)] and [B.merge(A)] both yield valid domains
    (whatever the two override flags), the merged domains have the same
    user actions ([actions] of the domain dict), the same [action_names],
    the same entities and the same forms, as sets. *)
Theorem C4_merge_commutes_on_set_fields (A B AB BA : Domain) (ov1 ov2 : bool) :
  merge A B ov1 = Some AB -> merge B A ov2 = Some BA ->
  (forall x, x ∈ user_actions AB <-> x ∈ user_actions BA) /\
  (forall x, x ∈ action_names AB <-> x ∈ action_names BA) /\
  (forall x, x ∈ entities AB <-> x ∈ entities BA) /\
  (forall x, x ∈ form_names AB <-> x ∈ form_names BA).
Proof.
  intros H1 H2.
  assert (Hu : forall x, x ∈ user_actions AB <-> x ∈ user_actions BA).
  { intros x; split; [exact (merge_user_actions_sub _ _ _ _ _ _ x H1 H2)
                     |exact (merge_user_actions_sub _ _ _ _ _ _ x H2 H1)]. }
  destruct (merge_some _ _ _ _ H1) as (_ & Hf1 & He1 & Ha1 & _).
  destruct (merge_some _ _ _ _ H2) as (_ & Hf2 & He2 & Ha2 & _).
  assert (Hf : forall x, x ∈ form_names AB <-> x ∈ form_names BA).
  { intros x. rewrite Hf1, Hf2. tauto. }
  split; [done|]. split; [|split; [|done]].
  - intros x. rewrite Ha1, Ha2, Hu, Hf. tauto.
  - intros x. rewrite He1, He2. tauto.
Qed.

Lemma C4_merge_commutes_on_set_fields_witness :
  merge domain_a0 domain_c0 false = Some (domain_or_empty (merge domain_a0 domain_c0 false)) /\
  merge domain_c0 domain_a0 true = Some (domain_or_empty (merge domain_c0 domain_a0 true)) /\
  ((forall x, x ∈ user_actions (domain_or_empty (merge domain_a0 domain_c0 false)) <->
              x ∈ user_actions (domain_or_empty (merge domain_c0 domain_a0 true))) /\
   (forall x, x ∈ action_names (domain_or_empty (merge domain_a0 domain_c0 false)) <->
              x ∈ action_names (domain_or_empty (merge domain_c0 domain_a0 true))) /\
   (forall x, x ∈ entities (domain_or_empty (merge domain_a0 domain_c0 false)) <->
              x ∈ entities (domain_or_empty (merge domain_c0 domain_a0 true))) /\
   (forall x, x ∈ form_names (domain_or_empty (merge domain_a0 domain_c0 false)) <->
              x ∈ form_names (domain_or_empty (merge domain_c0 domain_a0 true)))).
Proof.
  assert (H1 : merge domain_a0 domain_c0 false
               = Some (domain_or_empty (merge domain_a0 domain_c0 false)))
    by (vm_compute; reflexivity).
  assert (H2 : merge domain_c0 domain_a0 true
               = Some (domain_or_empty (merge domain_c0 domain_a0 true)))
    by (vm_compute; reflexivity).
  split; [exact H1|]. split; [exact H2|].
  exact (C4_merge_commutes_on_set_fields _ _ _ _ false true H1 H2).
Defined.

(** C6 (counterexample): constructing a domain whose intent [inform] has
    [use_entities: [city, date]] and [ignore_entities: [date]] succeeds and
    emits no warning at all. *)
Lemma C6_construction_emits_no_warning_counterexample :
  exists d p, ambiguous_domain_init = (Some d, []) /\
    dict_get "inform" (intent_properties d) = Some p /\
    use_entities p = UseList ["city"; "date"] /\ ignore_entities p = ["date"] /\
    "date" ∈ ["city"; "date"] /\ "date" ∈ ignore_entities p.
Proof.
  do 2 eexists. split; [reflexivity|]. split; [reflexivity|].
  split; [reflexivity|]. split; [reflexivity|].
  split; simpl; rewrite !elem_of_cons; tauto.
Qed.

(** C6 (amended): an ambiguous intent does not hinder construction:
    [Domain.__init__] emits no warning, and [collect_intent_properties]
    succeeds for any intents with distinct names, whatever their
    [use_entities] and [ignore_entities]. The ambiguity is reported by
    [_get_featurized_entities], which emits one warning naming exactly the
    entities of [L ∩ I] each time a message with that intent is featurized;
    exclusion wins: no entity of [I] is ever among the returned entities. *)
Theorem C6_ambiguity_warned_at_featurization (d : Domain) (msg : UserMessage)
    (n : string) (p : IntentProps) (L : list string) :
  msg_intent_name msg = Some n ->
  dict_get n (intent_properties d) = Some p ->
  use_entities p = UseList L ->
  (exists x, x ∈ L /\ x ∈ ignore_entities p) ->
  (forall intents ents slots templates actions forms store,
     (Domain_init intents ents slots templates actions forms store).2 = []) /\
  (forall decls, NoDup (map decl_name decls) ->
     exists props, collect_intent_properties decls = Some props) /\
  (exists amb, (get_featurized_entities d msg).2 = [AmbiguousEntitiesWarning amb (Some n)] /\
     forall x, x ∈ amb <-> x ∈ L /\ x ∈ ignore_entities p) /\
  (forall x, x ∈ ignore_entities p -> x ∉ (get_featurized_entities d msg).1).
Proof.
  intros Hn Hp HL [y [HyL HyI]].
  split; [reflexivity|]. split.
  { intros decls Hnd. apply collect_intent_properties_go_some. exact Hnd. }
  unfold get_featurized_entities, intent_config. rewrite Hn, Hp, HL. simpl.
  split.
  - eexists. split.
    + rewrite bool_decide_false; [reflexivity|].
      intros Hnil. apply (not_elem_of_nil y). rewrite <- Hnil.
      apply list_elem_of_filter. rewrite !elem_of_remove_dups. tauto.
    + intros x. rewrite list_elem_of_filter, !elem_of_remove_dups. tauto.
  - intros x Hx. rewrite list_elem_of_filter, elem_of_set_difference, !elem_of_remove_dups.
    tauto.
Qed.

Lemma C6_ambiguity_warned_at_featurization_witness :
  msg_intent_name inform_message = Some "inform" /\
  dict_get "inform" (intent_properties inform_domain)
    = Some (mkIntentProps (UseList ["city"; "date"]) ["date"] None) /\
  ((forall intents ents slots templates actions forms store,
      (Domain_init intents ents slots templates actions forms store).2 = []) /\
   (forall decls, NoDup (map decl_name decls) ->
      exists props, collect_intent_properties decls = Some props) /\
   (exists amb, (get_featurized_entities inform_domain inform_message).2
                  = [AmbiguousEntitiesWarning amb (Some "inform")] /\
      forall x, x ∈ amb <-> x ∈ ["city"; "date"] /\ x ∈ ["date"]) /\
   (forall x, x ∈ ["date"] -> x ∉ (get_featurized_entities inform_domain inform_message).1)).
Proof.
  split; [reflexivity|]. split; [vm_compute; reflexivity|].
  apply (C6_ambiguity_warned_at_featurization inform_domain inform_message "inform"
           (mkIntentProps (UseList ["city"; "date"]) ["date"] None) ["city"; "date"]).
  - reflexivity.
  - vm_compute. reflexivity.
  - reflexivity.
  - exists "date". simpl. rewrite !elem_of_cons. tauto.
Defined.

(* ------------------------------------------------------------------ *)
(** ** Facts on action lookup *)

Lemma list_index_lookup x l i : list_index x l = Some i -> l !! i = Some x.
Proof.
  revert i. induction l as [|y l IH]; intros i H; simpl in H; [discriminate|].
  destruct (String.eqb x y) eqn:E.
  - apply String.eqb_eq in E as ->. by inversion H.
  - destruct (list_index x l) as [k|] eqn:Ek; simpl in H; [|discriminate].
    inversion H; subst. simpl. by apply IH.
Qed.

Lemma list_index_None x l : list_index x l = None <-> x ∉ l.
Proof.
  induction l as [|y l IH]; simpl.
  - split; [intros _; apply not_elem_of_nil|done].
  - rewrite not_elem_of_cons. destruct (String.eqb x y) eqn:E.
    + apply String.eqb_eq in E as ->. split; [discriminate|tauto].
    + apply String.eqb_neq in E. destruct (list_index x l); simpl.
      * split; [discriminate|]. intros [_ Hn]. by apply IH in Hn.
      * split; [|done]. intros _. split; [done|]. by apply IH.
Qed.

Lemma list_index_NoDup x l i : NoDup l -> l !! i = Some x -> list_index x l = Some i.
Proof.
  intros Hnd Hi. destruct (list_index x l) as [j|] eqn:E.
  - apply list_index_lookup in E. f_equal. by eapply NoDup_lookup.
  - apply list_index_None in E. destruct E. by eapply list_elem_of_lookup_2.
Qed.

Lemma map_err_inr {E A B} (f : A -> E + B) (g : A -> B) l :
  (forall x, x ∈ l -> f x = inr (g x)) -> map_err f l = inr (map g l).
Proof.
  induction l as [|x l IH]; intros H; simpl; [done|].
  rewrite H by (by left). rewrite IH; [done|]. intros y Hy. apply H. by right.
Qed.

(* ------------------------------------------------------------------ *)
(** ** Facts on added slots *)

Lemma with_slots_slots d ss : slots (with_slots d ss) = ss.
Proof. done. Qed.

Lemma with_slots_twice d ss ss' : with_slots (with_slots d ss) ss' = with_slots d ss'.
Proof. done. Qed.

Lemma with_slots_self d : with_slots d (slots d) = d.
Proof. by destruct d. Qed.

Lemma add_missing_slots_fold (U : string -> Slot) (names : list string) ks ss :
  fold_left (fun ss s => if decide (s ∈ names) then ss else (ss ++ [U s])%list) ks ss
  = (ss ++ map U (filter (fun s => s ∉ names) ks))%list.
Proof.
  revert ss. induction ks as [|k ks IH]; intros ss; simpl.
  - by rewrite app_nil_r.
  - rewrite IH. rewrite filter_cons. case_decide; case_decide; try contradiction.
    + done.
    + simpl. by rewrite <- (assoc_L app).
Qed.

Lemma map_slot_name_unfeaturized (U : string -> Slot) (HU : forall n, slot_name (U n) = n) xs :
  map slot_name (map U xs) = xs.
Proof. rewrite map_map. induction xs; simpl; [done|by rewrite HU, IHxs]. Qed.

(* ------------------------------------------------------------------ *)
(** ** Facts on the state map *)

Lemma input_state_map_is_Some d s :
  is_Some (input_state_map d !! s) <-> s ∈ input_states d.
Proof.
  unfold input_state_map. split.
  - intros [k Hk]. destruct (decide (s ∈ input_states d)) as [|Hn]; [done|].
    rewrite enumerate_map_notin, lookup_empty in Hk by done. discriminate.
  - intros Hs. destruct (enumerate_map_in _ 0 ∅ _ Hs) as [k [Hk _]]. by rewrite Hk.
Qed.

Lemma latest_action_go_cases acc evs a :
  latest_action_go acc evs = Some a -> acc = Some a \/ ActionExecuted a ∈ evs.
Proof.
  revert acc. induction evs as [|ev evs IH]; intros acc H; simpl in H; [by left|].
  destruct ev; apply IH in H as [H|H]; rewrite ?elem_of_cons; try tauto.
  inversion H; subst. right; by left.
Qed.

(* ------------------------------------------------------------------ *)
(** ** Extra properties: domain *)

(** X1: in a domain built by [Domain.__init__], [index_for_action] and
    [action_names] are inverse: the name at position [i] is found at [i],
    a found index holds the name, and exactly the names outside
    [action_names] raise [NameError] ([None]). *)
Theorem X1_index_for_action_inverse intents ents slots templates acts forms store d :
  (Domain_init intents ents slots templates acts forms store).1 = Some d ->
  (forall i a, action_names d !! i = Some a -> index_for_action d a = Some i) /\
  (forall a i, index_for_action d a = Some i -> action_names d !! i = Some a) /\
  (forall a, index_for_action d a = None <-> a ∉ action_names d).
Proof.
  intros H. destruct (Domain_init_some _ _ _ _ _ _ _ _ H) as (_ & _ & _ & _ & Hnd).
  unfold index_for_action. split; [|split].
  - intros i a Hi. by apply list_index_NoDup.
  - intros a i Hi. by apply list_index_lookup.
  - intros a. apply list_index_None.
Qed.

Lemma X1_index_for_action_inverse_witness :
  (Domain_init [IntentName "greet"] ["name"] [] [("utter_greet", ["hi"])]
               ["action_search"] ["restaurant_form"] true).1 = Some domain_a0 /\
  ((forall i a, action_names domain_a0 !! i = Some a -> index_for_action domain_a0 a = Some i) /\
   (forall a i, index_for_action domain_a0 a = Some i -> action_names domain_a0 !! i = Some a) /\
   (forall a, index_for_action domain_a0 a = None <-> a ∉ action_names domain_a0)).
Proof.
  assert (H : (Domain_init [IntentName "greet"] ["name"] [] [("utter_greet", ["hi"])]
               ["action_search"] ["restaurant_form"] true).1 = Some domain_a0)
    by (vm_compute; reflexivity).
  split; [exact H|]. exact (X1_index_for_action_inverse _ _ _ _ _ _ _ _ H).
Defined.

(** X2: [action_for_index] raises [IndexError] exactly for an index below 0
    or at least [num_actions]; any other index resolves the name at that
    position through [action_from_name] and never raises [NameError].
    [actions] resolves every action name, in order, without raising. *)
Theorem X2_action_for_index_bounds (Action Endpoint : Type)
    (action_from_name : string -> Endpoint -> list string -> Action)
    (d : Domain) (index : Z) (ep : Endpoint) :
  ((index < 0 \/ Z.of_nat (num_actions d) <= index)%Z <->
     exists msg, action_for_index Action Endpoint action_from_name d index ep
                 = inl (IndexError msg)) /\
  ((0 <= index < Z.of_nat (num_actions d))%Z ->
     exists a, action_names d !! Z.to_nat index = Some a /\
       action_for_index Action Endpoint action_from_name d index ep
       = inr (action_from_name a ep (user_actions_and_forms d))) /\
  actions Action Endpoint action_from_name d ep
  = inr (map (fun a => action_from_name a ep (user_actions_and_forms d)) (action_names d)).
Proof.
  assert (Hin : forall a, a ∈ action_names d ->
            action_for_name Action Endpoint action_from_name d a ep
            = inr (action_from_name a ep (user_actions_and_forms d))).
  { intros a Ha. unfold action_for_name. by rewrite decide_True. }
  assert (Hok : (0 <= index < Z.of_nat (num_actions d))%Z ->
     exists a, action_names d !! Z.to_nat index = Some a /\
       action_for_index Action Endpoint action_from_name d index ep
       = inr (action_from_name a ep (user_actions_and_forms d))).
  { intros Hr. unfold num_actions in Hr.
    destruct (lookup_lt_is_Some_2 (action_names d) (Z.to_nat index)) as [a Ha]; [lia|].
    exists a. split; [done|]. unfold action_for_index, num_actions.
    replace ((Z.of_nat (length (action_names d)) <=? index) || (index <? 0))%Z with false
      by (symmetry; apply orb_false_iff; split; apply Z.leb_gt || apply Z.ltb_ge; lia).
    rewrite Ha. apply Hin. by eapply list_elem_of_lookup_2. }
  split; [|split; [exact Hok|]].
  - split.
    + intros Hr. unfold action_for_index.
      replace ((Z.of_nat (num_actions d) <=? index) || (index <? 0))%Z with true
        by (symmetry; apply orb_true_iff; destruct Hr; [right; apply Z.ltb_lt|left; apply Z.leb_le]; lia).
      by eexists.
    + intros [msg Hmsg]. destruct (decide (0 <= index < Z.of_nat (num_actions d))%Z) as [Hr|Hr];
        [|lia].
      destruct (Hok Hr) as [a [_ Ha]]. congruence.
  - apply map_err_inr. exact Hin.
Qed.

(** X3: [add_requested_slot] appends the [requested_slot] slot exactly when
    the domain has forms and no slot of that name; afterwards a domain with
    forms has the slot, the earlier slots are kept in front, slot names stay
    distinct, nothing but the slots changes, and a second call changes
    nothing. *)
Theorem X3_add_requested_slot (UnfeaturizedSlot : string -> Slot) (REQUESTED_SLOT : string)
    (HU : forall n, slot_name (UnfeaturizedSlot n) = n) (d : Domain) :
  let d' := add_requested_slot UnfeaturizedSlot REQUESTED_SLOT d in
  (form_names d <> [] -> REQUESTED_SLOT ∈ map slot_name (slots d')) /\
  (form_names d = [] -> d' = d) /\
  (exists extra, slots d' = (slots d ++ extra)%list) /\
  d' = with_slots d (slots d') /\
  (NoDup (map slot_name (slots d)) -> NoDup (map slot_name (slots d'))) /\
  add_requested_slot UnfeaturizedSlot REQUESTED_SLOT d' = d'.
Proof.
  simpl. unfold add_requested_slot.
  destruct (bool_decide (form_names d <> [])) eqn:Hf;
    [apply bool_decide_eq_true in Hf|apply bool_decide_eq_false in Hf];
  destruct (bool_decide (REQUESTED_SLOT ∈ map slot_name (slots d))) eqn:Hr;
    [apply bool_decide_eq_true in Hr| apply bool_decide_eq_false in Hr
    |apply bool_decide_eq_true in Hr| apply bool_decide_eq_false in Hr]; simpl.
  - rewrite bool_decide_true by done. rewrite bool_decide_true by done. simpl.
    repeat split; try done.
    + exists []. by rewrite app_nil_r.
    + by rewrite with_slots_self.
  - rewrite bool_decide_true by done. simpl.
    rewrite bool_decide_true
      by (rewrite map_app, elem_of_app; right; simpl; rewrite HU; by left).
    simpl. repeat split.
    + intros _. rewrite map_app, elem_of_app. right. simpl. rewrite HU. by left.
    + done.
    + by eexists.
    + intros Hnd. rewrite map_app. simpl. rewrite HU. apply NoDup_app. repeat split.
      * done.
      * intros x Hx Hx'. apply list_elem_of_singleton in Hx' as ->. done.
      * apply NoDup_singleton.
  - repeat split; try done. exists []. by rewrite app_nil_r. by rewrite with_slots_self.
    rewrite bool_decide_false by done. done.
  - repeat split; try done. exists []. by rewrite app_nil_r. by rewrite with_slots_self.
    rewrite bool_decide_false by done. done.
Qed.

Lemma X3_add_requested_slot_witness :
  (forall n, slot_name (unfeaturized_slot n) = n) /\
  map slot_name (slots (add_requested_slot unfeaturized_slot "requested_slot" domain_a0))
  = ["requested_slot"] /\
  (let d' := add_requested_slot unfeaturized_slot "requested_slot" domain_a0 in
   (form_names domain_a0 <> [] -> "requested_slot" ∈ map slot_name (slots d')) /\
   (form_names domain_a0 = [] -> d' = domain_a0) /\
   (exists extra, slots d' = (slots domain_a0 ++ extra)%list) /\
   d' = with_slots domain_a0 (slots d') /\
   (NoDup (map slot_name (slots domain_a0)) -> NoDup (map slot_name (slots d'))) /\
   add_requested_slot unfeaturized_slot "requested_slot" d' = d').
Proof.
  assert (HU : forall n, slot_name (unfeaturized_slot n) = n) by reflexivity.
  split; [exact HU|]. split; [vm_compute; reflexivity|].
  exact (X3_add_requested_slot unfeaturized_slot "requested_slot" HU domain_a0).
Defined.

Lemma filter_all_out {A} (P : A -> Prop) `{forall x, Decision (P x)} (l : list A) :
  (forall x, x ∈ l -> ~ P x) -> filter P l = [].
Proof.
  induction l as [|x l IH]; intros Hl; [done|]. rewrite filter_cons.
  rewrite decide_False by (apply Hl; by left). apply IH. intros y Hy. apply Hl. by right.
Qed.

(** X4: when the knowledge-base action is one of the domain's actions,
    [add_knowledge_base_slots] appends, in order, the three knowledge-base
    slots that are missing, so that all three are present afterwards;
    otherwise it changes nothing. The earlier slots are kept in front, slot
    names stay distinct when the three names are distinct, nothing but the
    slots changes, and a second call changes nothing. *)
Theorem X4_add_knowledge_base_slots (UnfeaturizedSlot : string -> Slot)
    (HU : forall n, slot_name (UnfeaturizedSlot n) = n)
    (KB L O T : string) (d : Domain) :
  let d' := add_knowledge_base_slots UnfeaturizedSlot KB L O T d in
  (KB ∈ action_names d ->
     slots d' = (slots d ++ map UnfeaturizedSlot
                   (filter (fun s => s ∉ map slot_name (slots d)) [L; O; T]))%list /\
     L ∈ map slot_name (slots d') /\ O ∈ map slot_name (slots d') /\
     T ∈ map slot_name (slots d')) /\
  (KB ∉ action_names d -> d' = d) /\
  d' = with_slots d (slots d') /\
  (NoDup [L; O; T] -> NoDup (map slot_name (slots d)) -> NoDup (map slot_name (slots d'))) /\
  add_knowledge_base_slots UnfeaturizedSlot KB L O T d' = d'.
Proof.
  simpl. unfold add_knowledge_base_slots.
  destruct (decide (KB ∈ action_names d)) as [Hkb|Hkb].
  - rewrite add_missing_slots_fold. simpl.
    set (names := map slot_name (slots d)).
    set (missing := filter (fun s => s ∉ names) [L; O; T]).
    assert (Hnames : map slot_name (slots d ++ map UnfeaturizedSlot missing)%list
                     = (names ++ missing)%list)
      by (rewrite map_app, map_slot_name_unfeaturized by exact HU; done).
    assert (Hall : forall x, x ∈ [L; O; T] -> x ∈ (names ++ missing)%list).
    { intros x Hx. rewrite elem_of_app. destruct (decide (x ∈ names)); [by left|].
      right. unfold missing. by apply list_elem_of_filter. }
    split; [|split; [intros []; done|split; [done|split]]].
    + split; [done|]. rewrite Hnames. repeat split; apply Hall; rewrite !elem_of_cons; tauto.
    + intros Hnd3 Hnd. rewrite Hnames. apply NoDup_app. repeat split.
      * done.
      * intros x Hx Hx'. unfold missing in Hx'. apply list_elem_of_filter in Hx'. tauto.
      * unfold missing. by apply NoDup_filter.
    + rewrite decide_True by done. cbv zeta. rewrite Hnames.
      rewrite !decide_True by (apply Hall; rewrite !elem_of_cons; tauto).
      done.
  - repeat split; try done. by rewrite with_slots_self. by rewrite decide_False.
Qed.

Lemma X4_add_knowledge_base_slots_witness :
  (forall n, slot_name (unfeaturized_slot n) = n) /\
  map slot_name (slots (add_knowledge_base_slots unfeaturized_slot "action_search"
                          "knowledge_base_listed_objects" "knowledge_base_last_object"
                          "knowledge_base_last_object_type" domain_a0))
  = ["knowledge_base_listed_objects"; "knowledge_base_last_object";
     "knowledge_base_last_object_type"] /\
  (let d' := add_knowledge_base_slots unfeaturized_slot "action_search"
               "knowledge_base_listed_objects" "knowledge_base_last_object"
               "knowledge_base_last_object_type" domain_a0 in
   ("action_search" ∈ action_names domain_a0 ->
     slots d' = (slots domain_a0 ++ map unfeaturized_slot
                   (filter (fun s => s ∉ map slot_name (slots domain_a0))
                      ["knowledge_base_listed_objects"; "knowledge_base_last_object";
                       "knowledge_base_last_object_type"]))%list /\
     "knowledge_base_listed_objects" ∈ map slot_name (slots d') /\
     "knowledge_base_last_object" ∈ map slot_name (slots d') /\
     "knowledge_base_last_object_type" ∈ map slot_name (slots d')) /\
   ("action_search" ∉ action_names domain_a0 -> d' = domain_a0) /\
   d' = with_slots domain_a0 (slots d') /\
   (NoDup ["knowledge_base_listed_objects"; "knowledge_base_last_object";
           "knowledge_base_last_object_type"] ->
    NoDup (map slot_name (slots domain_a0)) -> NoDup (map slot_name (slots d'))) /\
   add_knowledge_base_slots unfeaturized_slot "action_search"
     "knowledge_base_listed_objects" "knowledge_base_last_object"
     "knowledge_base_last_object_type" d' = d').
Proof.
  assert (HU : forall n, slot_name (unfeaturized_slot n) = n) by reflexivity.
  split; [exact HU|]. split; [vm_compute; reflexivity|].
  exact (X4_add_knowledge_base_slots unfeaturized_slot HU _ _ _ _ domain_a0).
Defined.

Lemma latest_action_name_executed t a :
  latest_action_name t = Some a -> ActionExecuted a ∈ events t.
Proof.
  unfold latest_action_name. intros H. by destruct (latest_action_go_cases _ _ _ H).
Qed.

(** X5: [get_prev_action_states] yields at most one state, with value 1.0;
    it is the [prev_] state of the latest executed action, and it is one of
    the domain's input states. When the latest action is a non-empty name
    among the domain's actions, that state is always produced. *)
Theorem X5_get_prev_action_states d t :
  length (get_prev_action_states d t) <= 1 /\
  (forall k q, (k, q) ∈ get_prev_action_states d t ->
     q = 1%Q /\ k ∈ input_states d /\
     exists a, latest_action_name t = Some a /\ k = PREV_PREFIX +s+ a /\
               ActionExecuted a ∈ events t) /\
  (forall a, latest_action_name t = Some a -> a <> "" -> a ∈ action_names d ->
     get_prev_action_states d t = [(PREV_PREFIX +s+ a, 1%Q)]).
Proof.
  unfold get_prev_action_states.
  destruct (latest_action_name t) as [a|] eqn:Hl.
  - destruct (str_truthy a) eqn:Ht.
    + destruct (decide (is_Some (input_state_map d !! (PREV_PREFIX +s+ a)))) as [Hs|Hs].
      * split; [simpl; lia|split].
        -- intros k q Hkq. apply list_elem_of_singleton in Hkq. inversion Hkq; subst.
           split; [done|]. split; [by apply input_state_map_is_Some|].
           exists a. split; [done|]. split; [done|]. by apply latest_action_name_executed.
        -- intros a' Ha'. by inversion Ha'.
      * split; [simpl; lia|split].
        -- intros k q Hkq. by apply not_elem_of_nil in Hkq.
        -- intros a' Ha' _ Hin. inversion Ha'; subst. exfalso. apply Hs.
           apply input_state_map_is_Some. unfold input_states, prev_action_states.
           rewrite !elem_of_app. right; right; right; left.
           apply list_elem_of_fmap. eauto.
    + split; [simpl; lia|split].
      * intros k q Hkq. by apply not_elem_of_nil in Hkq.
      * intros a' Ha' Hne. inversion Ha'; subst. unfold str_truthy in Ht.
        apply negb_false_iff, String.eqb_eq in Ht. done.
  - split; [simpl; lia|split].
    + intros k q Hkq. by apply not_elem_of_nil in Hkq.
    + done.
Qed.

(* ------------------------------------------------------------------ *)
(** ** Extra properties: domain warnings and templates *)

Lemma NoDup_set_difference a b : NoDup (set_difference a b).
Proof. apply NoDup_remove_dups. Qed.

(** X6: the action warnings never list a default action as missing from
    the training data, and always list a default action that the training
    data names as missing from the domain; otherwise they are the two set
    differences of the domain's user actions and forms and the training
    actions, each without duplicates. *)
Theorem X6_action_warnings (is_unfeaturized_slot : Slot -> bool) d
    (intents' entities' actions' slots' : option (list string)) :
  let w := action_warnings (domain_warnings is_unfeaturized_slot d intents' entities'
                                            actions' slots') in
  let training := default [] actions' in
  (forall x, x ∈ in_domain w <->
     (x ∈ user_actions_and_forms d) /\ (x ∉ default_action_names) /\ (x ∉ training)) /\
  (forall x, x ∈ in_training_data w <->
     x ∈ training /\ (x ∈ default_action_names \/ x ∉ user_actions_and_forms d)) /\
  NoDup (in_domain w) /\ NoDup (in_training_data w).
Proof.
  simpl. split; [|split; [|split]].
  - intros x. rewrite elem_of_set_difference. unfold actions_for_domain_warnings.
    rewrite list_elem_of_filter. tauto.
  - intros x. rewrite elem_of_set_difference. unfold actions_for_domain_warnings.
    rewrite list_elem_of_filter.
    destruct (decide (x ∈ default_action_names)); tauto.
  - apply NoDup_set_difference.
  - apply NoDup_set_difference.
Qed.

(** X7: the slot warnings leave out the unfeaturized slots of the domain,
    so a training-data slot that is an unfeaturized domain slot is reported
    as missing from the domain. With no training data at all ([None]
    everywhere) nothing is reported as missing from the domain, and the
    domain side lists exactly the intents, entities, non-default actions and
    forms, and featurized slots. *)
Theorem X7_domain_warnings_sides (is_unfeaturized_slot : Slot -> bool) d
    (intents' entities' actions' slots' : option (list string)) :
  (forall x, x ∈ in_training_data (slot_warnings
       (domain_warnings is_unfeaturized_slot d intents' entities' actions' slots')) <->
     x ∈ default [] slots' /\
     x ∉ map slot_name (filter (fun s => is_unfeaturized_slot s = false) (slots d))) /\
  (let w := domain_warnings is_unfeaturized_slot d None None None None in
   in_training_data (intent_warnings w) = [] /\ in_training_data (entity_warnings w) = [] /\
   in_training_data (action_warnings w) = [] /\ in_training_data (slot_warnings w) = [] /\
   (forall x, x ∈ in_domain (intent_warnings w) <-> x ∈ intents d) /\
   (forall x, x ∈ in_domain (entity_warnings w) <-> x ∈ entities d) /\
   (forall x, x ∈ in_domain (action_warnings w) <->
      x ∈ user_actions_and_forms d /\ x ∉ default_action_names) /\
   (forall x, x ∈ in_domain (slot_warnings w) <->
      exists s, s ∈ slots d /\ is_unfeaturized_slot s = false /\ slot_name s = x)).
Proof.
  split.
  - intros x. simpl. rewrite elem_of_set_difference. unfold slots_for_domain_warnings. tauto.
  - simpl. unfold set_difference. rewrite !filter_nil. simpl.
    do 4 (split; [done|]).
    split; [|split; [|split]]; intros x; rewrite ?elem_of_remove_dups, ?list_elem_of_filter.
    + pose proof (not_elem_of_nil x). tauto.
    + pose proof (not_elem_of_nil x). tauto.
    + unfold actions_for_domain_warnings. rewrite list_elem_of_filter.
      pose proof (not_elem_of_nil x). tauto.
    + unfold slots_for_domain_warnings. rewrite list_elem_of_fmap. split.
      * intros [_ [s [-> Hs]]]. apply list_elem_of_filter in Hs as [? ?]. eauto.
      * intros (s & Hs & Hf & <-). split; [apply not_elem_of_nil|].
        exists s. split; [done|]. by apply list_elem_of_filter.
Qed.

Lemma collect_variations_ok key vs validated warnings :
  Forall accepted_variation vs ->
  collect_variations key vs validated warnings
  = (inr (validated ++ map validated_variation vs)%list,
     (warnings ++ variation_warnings key vs)%list).
Proof.
  revert validated warnings. induction vs as [|v vs IH]; intros validated warnings Hall.
  - simpl. by rewrite !app_nil_r.
  - apply Forall_cons in Hall as [Hv Hall]. destruct v as [t|f]; simpl.
    + rewrite IH by done. unfold variation_warnings. simpl.
      by rewrite <- !(assoc_L app).
    + rewrite decide_False by (intros [H1 H2]; destruct Hv as [Hv|Hv]; contradiction). rewrite IH by done.
      unfold variation_warnings. simpl. by rewrite <- !(assoc_L app).
Qed.

Lemma collect_variations_err key vs validated warnings :
  ~ Forall accepted_variation vs ->
  exists e ws, collect_variations key vs validated warnings = (inl e, ws).
Proof.
  revert validated warnings. induction vs as [|v vs IH]; intros validated warnings Hn.
  - exfalso. by apply Hn.
  - destruct v as [t|f]; simpl.
    + apply IH. intros H. apply Hn. by constructor.
    + destruct (decide _) as [Hd|Hd]; [by eexists _, _|].
      apply IH. intros H. apply Hn. constructor; [|done]. simpl.
      destruct (decide ("text" ∈ map fst f)), (decide ("custom" ∈ map fst f)); tauto.
Qed.

Lemma dict_set_fresh {V} k (v : V) d : k ∉ map fst d -> dict_set k v d = (d ++ [(k, v)])%list.
Proof.
  induction d as [|[k' v'] d IH]; intros Hk; simpl; [done|].
  simpl in Hk. apply not_elem_of_cons in Hk as [Hne Hk].
  destruct (String.eqb_spec k' k); [congruence|]. by rewrite IH.
Qed.

Lemma collect_templates_go_ok yml templates warnings :
  NoDup (map fst yml) -> (forall k, k ∈ map fst yml -> k ∉ map fst templates) ->
  (forall k o, (k, o) ∈ yml -> exists vs, o = Some vs /\ Forall accepted_variation vs) ->
  collect_templates_go yml templates warnings
  = (inr (templates ++ map (fun '(k, o) => (k, map validated_variation (default [] o))) yml)%list,
     (warnings ++ concat (map (fun '(k, o) => variation_warnings k (default [] o)) yml))%list).
Proof.
  revert templates warnings. induction yml as [|[k o] yml IH]; intros templates warnings Hnd Hfresh Hall.
  - simpl. by rewrite !app_nil_r.
  - destruct (Hall k o) as [vs [-> Hvs]]; [by left|]. simpl.
    rewrite collect_variations_ok by done. simpl in Hnd. apply NoDup_cons in Hnd as [Hk Hnd].
    rewrite IH.
    + rewrite dict_set_fresh by (apply Hfresh; by left). simpl.
      by rewrite <- !(assoc_L app).
    + done.
    + intros k' Hk'. rewrite dict_set_fresh by (apply Hfresh; by left).
      rewrite map_app. simpl. rewrite elem_of_app, list_elem_of_singleton.
      intros [H| ->]; [|done].
      apply (Hfresh k'); [simpl; apply elem_of_cons; by right|done].
    + intros k' o' Ho'. apply (Hall k'). by right.
Qed.


Lemma collect_templates_go_inr yml templates warnings ts ws :
  collect_templates_go yml templates warnings = (inr ts, ws) ->
  forall k o, (k, o) ∈ yml -> exists vs, o = Some vs /\ Forall accepted_variation vs.
Proof.
  revert templates warnings. induction yml as [|[k o] yml IH]; intros templates warnings Hc k' o' Ho.
  - by apply not_elem_of_nil in Ho.
  - destruct o as [vs|]; simpl in Hc; [|discriminate].
    destruct (decide (Forall accepted_variation vs)) as [Hvs|Hvs].
    + rewrite collect_variations_ok in Hc by done.
      apply elem_of_cons in Ho as [Ho|Ho]; [inversion Ho; subst; eauto|].
      eapply IH; [exact Hc|exact Ho].
    + destruct (collect_variations_err k vs [] warnings Hvs) as (e & ws' & He).
      rewrite He in Hc. discriminate.
Qed.

(** X8: [collect_templates] on a domain file (whose utterance keys are
    distinct) succeeds exactly when every utterance has a list of variations
    and every dict variation has a [text] or a [custom] key. It then keeps
    the utterances in file order, turns each string variation into
    [{"text": ...}] with one deprecation warning, and keeps dicts as they are. *)
Theorem X8_collect_templates yml :
  NoDup (map fst yml) ->
  ((exists ts ws, collect_templates yml = (inr ts, ws)) <->
   (forall k o, (k, o) ∈ yml -> exists vs, o = Some vs /\ Forall accepted_variation vs)) /\
  ((forall k o, (k, o) ∈ yml -> exists vs, o = Some vs /\ Forall accepted_variation vs) ->
   collect_templates yml
   = (inr (map (fun '(k, o) => (k, map validated_variation (default [] o))) yml),
      concat (map (fun '(k, o) => variation_warnings k (default [] o)) yml))).
Proof.
  intros Hnd.
  assert (Hok : (forall k o, (k, o) ∈ yml -> exists vs, o = Some vs /\ Forall accepted_variation vs) ->
   collect_templates yml
   = (inr (map (fun '(k, o) => (k, map validated_variation (default [] o))) yml),
      concat (map (fun '(k, o) => variation_warnings k (default [] o)) yml))).
  { intros Hall. unfold collect_templates. rewrite collect_templates_go_ok; try done.
    intros k _. apply not_elem_of_nil. }
  split; [|exact Hok]. split.
  - intros (ts & ws & Hc). exact (collect_templates_go_inr _ _ _ _ _ Hc).
  - intros Hall. rewrite (Hok Hall). by eexists _, _.
Qed.

Lemma X8_collect_templates_witness :
  NoDup (map fst [("utter_greet", Some [TemplateString "hi"; TemplateDict [("text", "hey")]])]) /\
  (let yml := [("utter_greet", Some [TemplateString "hi"; TemplateDict [("text", "hey")]])] in
   ((exists ts ws, collect_templates yml = (inr ts, ws)) <->
    (forall k o, (k, o) ∈ yml -> exists vs, o = Some vs /\ Forall accepted_variation vs)) /\
   ((forall k o, (k, o) ∈ yml -> exists vs, o = Some vs /\ Forall accepted_variation vs) ->
    collect_templates yml
    = (inr (map (fun '(k, o) => (k, map validated_variation (default [] o))) yml),
       concat (map (fun '(k, o) => variation_warnings k (default [] o)) yml)))).
Proof.
  assert (H : NoDup (map fst [("utter_greet", Some [TemplateString "hi"; TemplateDict [("text", "hey")]])]))
    by (simpl; apply NoDup_singleton).
  split; [exact H|]. exact (X8_collect_templates _ H).
Defined.

(* ------------------------------------------------------------------ *)
(** ** Extra properties: dumping and loading *)

Lemma collect_intent_properties_go_NoDup acc decls props :
  NoDup (map fst acc) -> collect_intent_properties_go acc decls = Some props ->
  NoDup (map fst props).
Proof.
  revert acc. induction decls as [|i decls IH]; intros acc Hnd H; simpl in H.
  - by inversion H; subst.
  - destruct (normalise_intent i) as [n p].
    destruct (decide (n ∈ map fst acc)) as [|Hn]; [discriminate|].
    refine (IH _ _ H). rewrite map_app. simpl. apply NoDup_app. repeat split.
    + done.
    + intros x Hx Hx'. apply list_elem_of_singleton in Hx'. subst. done.
    + apply NoDup_singleton.
Qed.

Lemma collect_intent_properties_go_map (f : string * IntentProps -> IntentDecl) acc props :
  (forall kv, normalise_intent (f kv) = kv) ->
  NoDup (map fst acc ++ map fst props)%list ->
  collect_intent_properties_go acc (map f props) = Some (acc ++ props)%list.
Proof.
  intros Hf. revert acc. induction props as [|kv props IH]; intros acc Hnd; simpl.
  - by rewrite app_nil_r.
  - rewrite Hf. destruct kv as [n p].
    rewrite decide_False.
    + rewrite IH; [by rewrite <- (assoc_L app)|]. rewrite map_app, <- (assoc_L app). exact Hnd.
    + intros Hin. apply NoDup_app in Hnd as (_ & Hdis & _). apply (Hdis n Hin). simpl. by left.
Qed.

Lemma Domain_init_intent_properties intents ents slots templates actions forms store d :
  (Domain_init intents ents slots templates actions forms store).1 = Some d ->
  collect_intent_properties intents = Some (intent_properties d).
Proof.
  unfold Domain_init. simpl.
  destruct (collect_intent_properties intents) as [props|]; simpl; [|discriminate].
  destruct (check_domain_sanity _); [|discriminate]. by intros [= <-].
Qed.

(** X9: the intents written by [as_dict] and by [cleaned_domain] of a
    domain built by [Domain.__init__] are read back by
    [collect_intent_properties] into the same intent properties, in the
    same order: dumping the intents loses nothing. *)
Theorem X9_intents_dump_roundtrip intents ents slots templates actions forms store d :
  (Domain_init intents ents slots templates actions forms store).1 = Some d ->
  collect_intent_properties (as_dict_intents d) = Some (intent_properties d) /\
  collect_intent_properties (cleaned_intents d) = Some (intent_properties d).
Proof.
  intros H. apply Domain_init_intent_properties in H.
  assert (Hnd : NoDup (map fst (@nil (string * IntentProps)) ++ map fst (intent_properties d))%list).
  { simpl. apply (collect_intent_properties_go_NoDup [] intents); [constructor|exact H]. }
  split; unfold collect_intent_properties.
  - apply (collect_intent_properties_go_map intent_entry [] _); [|exact Hnd].
    intros [n [[|l] ig tr]]; reflexivity.
  - apply (collect_intent_properties_go_map cleaned_intent [] _); [|exact Hnd].
    intros [n [[|l] [|x ig] [tr|]]]; reflexivity.
Qed.

Lemma X9_intents_dump_roundtrip_witness :
  (Domain_init [IntentName "greet"] ["name"] [] [("utter_greet", ["hi"])]
               ["action_search"] ["restaurant_form"] true).1 = Some domain_a0 /\
  (collect_intent_properties (as_dict_intents domain_a0) = Some (intent_properties domain_a0) /\
   collect_intent_properties (cleaned_intents domain_a0) = Some (intent_properties domain_a0)).
Proof.
  assert (H : (Domain_init [IntentName "greet"] ["name"] [] [("utter_greet", ["hi"])]
               ["action_search"] ["restaurant_form"] true).1 = Some domain_a0)
    by (vm_compute; reflexivity).
  split; [exact H|]. exact (X9_intents_dump_roundtrip _ _ _ _ _ _ _ _ H).
Defined.

Lemma Domain_init_fields intents ents slots0 templates0 actions forms store d :
  (Domain_init intents ents slots0 templates0 actions forms store).1 = Some d ->
  slots d = slots0 /\ templates d = templates0 /\ store_entities_as_slots d = store.
Proof.
  unfold Domain_init. simpl.
  destruct (collect_intent_properties intents) as [props|]; simpl; [|discriminate].
  destruct (check_domain_sanity _); [|discriminate]. by intros [= <-].
Qed.

Lemma Domain_empty_eq :
  Domain_empty = Some (mkDomain [] [] [] [] [] [] default_action_names true).
Proof. vm_compute. reflexivity. Qed.

Lemma Domain_load_fold_store (from_path : string -> option Domain) paths acc D :
  (forall d, acc = Some d -> store_entities_as_slots d = true) ->
  fold_left (fun domain path => d ← domain; other ← from_path path; merge d other false)
            paths acc = Some D ->
  store_entities_as_slots D = true.
Proof.
  revert acc. induction paths as [|p paths IH]; intros acc Hacc H; simpl in H.
  - by apply Hacc.
  - refine (IH _ _ H). intros d' Hd'.
    destruct acc as [d|]; simpl in Hd'; [|discriminate].
    destruct (from_path p) as [o|]; simpl in Hd'; [|discriminate].
    unfold merge in Hd'. apply Domain_init_fields in Hd' as (_ & _ & ->). simpl.
    by apply Hacc.
Qed.

Lemma Domain_load_fold_None (from_path : string -> option Domain) paths :
  fold_left (fun domain path => d ← domain; other ← from_path path; merge d other false)
            paths None = None.
Proof. induction paths; simpl; done. Qed.

Lemma Domain_load_fold_fail (from_path : string -> option Domain) paths p acc :
  p ∈ paths -> from_path p = None ->
  fold_left (fun domain path => d ← domain; other ← from_path path; merge d other false)
            paths acc = None.
Proof.
  revert acc. induction paths as [|q paths IH]; intros acc Hin Hfp;
    [by apply not_elem_of_nil in Hin|].
  simpl. apply elem_of_cons in Hin as [->|Hin].
  - rewrite Hfp. destruct acc; simpl; apply Domain_load_fold_None.
  - by apply IH.
Qed.

(** X10: [Domain.load] raises [InvalidDomain] when no path is given or when
    any of the given paths fails to load, and the domain it returns always
    has [store_entities_as_slots] set: every file is merged into the empty
    domain without override, so the setting of the files is never taken. *)
Theorem X10_Domain_load (from_path : string -> option Domain) paths D :
  Domain_load from_path paths = Some D ->
  paths <> [] /\ (forall p, p ∈ paths -> is_Some (from_path p)) /\
  store_entities_as_slots D = true.
Proof.
  intros H. split; [by intros ->|split].
  - intros p Hin. destruct (from_path p) as [o|] eqn:Hfp; [by eexists|exfalso].
    unfold Domain_load in H. destruct paths as [|p0 ps]; [discriminate|].
    rewrite (Domain_load_fold_fail from_path _ p _ Hin Hfp) in H. discriminate.
  - unfold Domain_load in H. destruct paths as [|p0 ps]; [discriminate|].
    refine (Domain_load_fold_store from_path _ Domain_empty D _ H).
    intros d. rewrite Domain_empty_eq. by intros [= <-].
Qed.

Lemma X10_Domain_load_witness :
  store_entities_as_slots (domain_or_empty domain_file_no_store) = false /\
  Domain_load (fun _ => domain_file_no_store) ["domain.yml"]
  = Some (domain_or_empty (Domain_load (fun _ => domain_file_no_store) ["domain.yml"])) /\
  (["domain.yml"] <> [] /\
   (forall p, p ∈ ["domain.yml"] -> is_Some ((fun _ => domain_file_no_store) p)) /\
   store_entities_as_slots
     (domain_or_empty (Domain_load (fun _ => domain_file_no_store) ["domain.yml"])) = true).
Proof.
  assert (H : Domain_load (fun _ => domain_file_no_store) ["domain.yml"]
    = Some (domain_or_empty (Domain_load (fun _ => domain_file_no_store) ["domain.yml"])))
    by (vm_compute; reflexivity).
  split; [vm_compute; reflexivity|].
  split; [exact H|]. exact (X10_Domain_load _ _ _ H).
Defined.

(** X11: loading a single domain file with [Domain.load] gives back the
    file's user actions, forms, entities and action names (as sets): the
    merge into the empty domain drops nothing and adds nothing. *)
Theorem X11_Domain_load_single (from_path : string -> option Domain) p D B
    intents ents slots0 templates0 actions forms store :
  (Domain_init intents ents slots0 templates0 actions forms store).1 = Some B ->
  from_path p = Some B ->
  Domain_load from_path [p] = Some D ->
  (forall x, x ∈ user_actions D <-> x ∈ user_actions B) /\
  (forall x, x ∈ form_names D <-> x ∈ form_names B) /\
  (forall x, x ∈ entities D <-> x ∈ entities B) /\
  (forall x, x ∈ action_names D <-> x ∈ action_names B).
Proof.
  intros HB Hfp HD. unfold Domain_load in HD. cbn [fold_left] in HD.
  rewrite Domain_empty_eq in HD. simpl in HD. rewrite Hfp in HD. simpl in HD.
  destruct (merge_some _ _ _ _ HD) as (Hu & Hf & He & Ha & _). simpl in Hu, Hf, He.
  destruct (Domain_init_some _ _ _ _ _ _ _ _ HB) as (HuB & HfB & _ & HaB & _).
  destruct (Domain_init_fields _ _ _ _ _ _ _ _ HB) as (_ & HtB & _).
  assert (HuD : forall x, x ∈ user_actions D <-> x ∈ user_actions B).
  { intros x. rewrite Hu. unfold remove_forms. simpl.
    pose proof (not_elem_of_nil x).
    assert (x ∈ map fst (templates B) -> x ∈ user_actions B)
      by (rewrite HuB, HtB, combine_with_templates_elem; tauto).
    tauto. }
  split; [exact HuD|]. split; [intros x; rewrite Hf; pose proof (not_elem_of_nil x); tauto|].
  split; [intros x; rewrite He; pose proof (not_elem_of_nil x); tauto|].
  intros x. rewrite Ha, HuD, HaB, elem_of_app, combine_user_with_default_actions_elem, <- HuB, <- HfB.
  rewrite Hf. pose proof (not_elem_of_nil x). tauto.
Qed.

Lemma X11_Domain_load_single_witness :
  (Domain_init [IntentName "bye"] ["city"] [] [("utter_bye", ["bye"])] ["action_pay"] [] false).1
    = Some (domain_or_empty domain_file_no_store) /\
  (fun _ : string => domain_file_no_store) "domain.yml" = Some (domain_or_empty domain_file_no_store) /\
  Domain_load (fun _ => domain_file_no_store) ["domain.yml"]
  = Some (domain_or_empty (Domain_load (fun _ => domain_file_no_store) ["domain.yml"])) /\
  (let D := domain_or_empty (Domain_load (fun _ => domain_file_no_store) ["domain.yml"]) in
   let B := domain_or_empty domain_file_no_store in
   (forall x, x ∈ user_actions D <-> x ∈ user_actions B) /\
   (forall x, x ∈ form_names D <-> x ∈ form_names B) /\
   (forall x, x ∈ entities D <-> x ∈ entities B) /\
   (forall x, x ∈ action_names D <-> x ∈ action_names B)).
Proof.
  assert (H1 : (Domain_init [IntentName "bye"] ["city"] [] [("utter_bye", ["bye"])] ["action_pay"] [] false).1
    = Some (domain_or_empty domain_file_no_store)) by (vm_compute; reflexivity).
  assert (H2 : (fun _ : string => domain_file_no_store) "domain.yml"
    = Some (domain_or_empty domain_file_no_store)) by (vm_compute; reflexivity).
  assert (H3 : Domain_load (fun _ => domain_file_no_store) ["domain.yml"]
    = Some (domain_or_empty (Domain_load (fun _ => domain_file_no_store) ["domain.yml"])))
    by (vm_compute; reflexivity).
  split; [exact H1|]. split; [exact H2|]. split; [exact H3|].
  exact (X11_Domain_load_single _ _ _ _ _ _ _ _ _ _ _ H1 H2 H3).
Defined.

(* ------------------------------------------------------------------ *)
(** ** Extra properties: slots from entities *)

Lemma matching_entities_ok name es :
  (forall e, e ∈ es -> is_Some (dict_get "entity" e) /\ is_Some (dict_get "value" e)) ->
  matching_entities name es = inr (entity_values name es).
Proof.
  induction es as [|e es IH]; intros Hes; [done|]. simpl.
  destruct (Hes e ltac:(by left)) as [[n Hn] [v Hv]].
  rewrite Hn. unfold entity_values. simpl. fold (entity_values name es).
  rewrite IH by (intros e' He'; apply Hes; by right).
  destruct (String.eqb_spec n name) as [->|Hne].
  - rewrite bool_decide_true by done. by rewrite Hv.
  - rewrite bool_decide_false by congruence. done.
Qed.

Lemma slot_events_ok (slot_auto_fill : Slot -> bool) (slot_type_name : Slot -> string) ss es :
  (forall e, e ∈ es -> is_Some (dict_get "entity" e) /\ is_Some (dict_get "value" e)) ->
  exists evs, slot_events slot_auto_fill slot_type_name ss es = inr evs /\
    map slot_key evs = map slot_name (filter (fun s => slot_auto_fill s = true /\
                                          entity_values (slot_name s) es <> []) ss) /\
    (forall ev, ev ∈ evs -> exists s, s ∈ ss /\ slot_auto_fill s = true /\
       slot_name s = slot_key ev /\ entity_values (slot_name s) es <> [] /\
       slot_value ev = if String.eqb (slot_type_name s) "list"
                       then SlotValueList (entity_values (slot_name s) es)
                       else SlotValueOne (default "" (last (entity_values (slot_name s) es)))).
Proof.
  intros Hes. induction ss as [|s ss IH].
  - exists []. split; [done|]. split; [done|]. intros ev Hev. by apply not_elem_of_nil in Hev.
  - destruct IH as (evs & Hevs & Hkeys & Hvals). simpl.
    rewrite filter_cons.
    destruct (slot_auto_fill s) eqn:Ha.
    + rewrite matching_entities_ok by done. rewrite Hevs.
      destruct (last (entity_values (slot_name s) es)) as [v|] eqn:Hl.
      * assert (Hne : entity_values (slot_name s) es <> []) by (intros Hn; rewrite Hn in Hl; done).
        rewrite decide_True by done.
        eexists. split; [reflexivity|]. split.
        -- simpl. destruct (String.eqb (slot_type_name s) "list"); simpl; by rewrite Hkeys.
        -- intros ev Hev. apply elem_of_cons in Hev as [->|Hev].
           ++ exists s. split; [by left|]. split; [done|].
              destruct (String.eqb (slot_type_name s) "list"); simpl;
                (split; [done|split; [done|]]); [done|by rewrite Hl].
           ++ destruct (Hvals ev Hev) as (s' & Hs' & Hrest). exists s'.
              split; [by right|exact Hrest].
      * assert (Hn : entity_values (slot_name s) es = [])
          by (destruct (entity_values (slot_name s) es) using rev_ind;
              [done|rewrite last_snoc in Hl; discriminate]).
        rewrite decide_False by tauto.
        exists evs. split; [done|]. split; [done|].
        intros ev Hev. destruct (Hvals ev Hev) as (s' & Hs' & Hrest). exists s'.
        split; [by right|exact Hrest].
    + rewrite decide_False by (intros [? _]; discriminate).
      exists evs. split; [done|]. split; [done|].
      intros ev Hev. destruct (Hvals ev Hev) as (s' & Hs' & Hrest). exists s'.
      split; [by right|exact Hrest].
Qed.

(** X12: when every entity has an [entity] and a [value] key,
    [slots_for_entities] raises nothing. It returns no events when the
    domain does not store entities as slots; otherwise it sets, in slot
    order, each auto-filled slot that some entity names: a [list] slot gets
    all the matching values in order, any other slot the last one. *)
Theorem X12_slots_for_entities (slot_auto_fill : Slot -> bool) (slot_type_name : Slot -> string)
    d es :
  (forall e, e ∈ es -> is_Some (dict_get "entity" e) /\ is_Some (dict_get "value" e)) ->
  exists evs, slots_for_entities slot_auto_fill slot_type_name d es = inr evs /\
    (store_entities_as_slots d = false -> evs = []) /\
    (store_entities_as_slots d = true ->
       map slot_key evs = map slot_name (filter (fun s => slot_auto_fill s = true /\
                                          entity_values (slot_name s) es <> []) (slots d))) /\
    (forall ev, ev ∈ evs -> exists s, s ∈ slots d /\ slot_auto_fill s = true /\
       slot_name s = slot_key ev /\ entity_values (slot_name s) es <> [] /\
       slot_value ev = if String.eqb (slot_type_name s) "list"
                       then SlotValueList (entity_values (slot_name s) es)
                       else SlotValueOne (default "" (last (entity_values (slot_name s) es)))).
Proof.
  intros Hes. unfold slots_for_entities. destruct (store_entities_as_slots d).
  - destruct (slot_events_ok slot_auto_fill slot_type_name (slots d) es Hes)
      as (evs & H1 & H2 & H3).
    exists evs. split; [done|]. split; [discriminate|]. split; [by intros _|exact H3].
  - exists []. split; [done|]. split; [done|]. split; [discriminate|].
    intros ev Hev. by apply not_elem_of_nil in Hev.
Qed.

Lemma X12_slots_for_entities_witness :
  (forall e, e ∈ [[("entity", "city"); ("value", "Berlin")]; [("entity", "city"); ("value", "Paris")]] ->
     is_Some (dict_get "entity" e) /\ is_Some (dict_get "value" e)) /\
  slots_for_entities (fun _ => true) (fun _ => "text") (with_slots domain_a0 [city_slot])
    [[("entity", "city"); ("value", "Berlin")]; [("entity", "city"); ("value", "Paris")]]
  = inr [mkSlotSet "city" (SlotValueOne "Paris")] /\
  exists evs, slots_for_entities (fun _ => true) (fun _ => "text") (with_slots domain_a0 [city_slot])
    [[("entity", "city"); ("value", "Berlin")]; [("entity", "city"); ("value", "Paris")]] = inr evs /\
    (store_entities_as_slots (with_slots domain_a0 [city_slot]) = false -> evs = []) /\
    (store_entities_as_slots (with_slots domain_a0 [city_slot]) = true ->
       map slot_key evs = map slot_name (filter (fun s => (fun _ => true) s = true /\
          entity_values (slot_name s) [[("entity", "city"); ("value", "Berlin")];
                                       [("entity", "city"); ("value", "Paris")]] <> [])
          (slots (with_slots domain_a0 [city_slot])))) /\
    (forall ev, ev ∈ evs -> exists s, s ∈ slots (with_slots domain_a0 [city_slot]) /\
       (fun _ => true) s = true /\ slot_name s = slot_key ev /\
       entity_values (slot_name s) [[("entity", "city"); ("value", "Berlin")];
                                    [("entity", "city"); ("value", "Paris")]] <> [] /\
       slot_value ev = if String.eqb ((fun _ => "text") s) "list"
         then SlotValueList (entity_values (slot_name s)
                [[("entity", "city"); ("value", "Berlin")]; [("entity", "city"); ("value", "Paris")]])
         else SlotValueOne (default "" (last (entity_values (slot_name s)
                [[("entity", "city"); ("value", "Berlin")]; [("entity", "city"); ("value", "Paris")]])))).
Proof.
  assert (H : forall e, e ∈ [[("entity", "city"); ("value", "Berlin")]; [("entity", "city"); ("value", "Paris")]] ->
     is_Some (dict_get "entity" e) /\ is_Some (dict_get "value" e)).
  { intros e He. rewrite !elem_of_cons in He.
    destruct He as [->|[->|He]]; [split; by eexists..|by apply not_elem_of_nil in He]. }
  split; [exact H|]. split; [vm_compute; reflexivity|].
  exact (X12_slots_for_entities (fun _ => true) (fun _ => "text") (with_slots domain_a0 [city_slot]) _ H).
Defined.

(* ------------------------------------------------------------------ *)
(** ** Extra properties: policy ensemble *)

Lemma zdict_get_group_append k0 v d k :
  zdict_get k (group_append k0 v d)
  = if Z.eqb k0 k then Some (default [] (zdict_get k d) ++ [v])%list else zdict_get k d.
Proof.
  induction d as [|[k' vs] d IH]; simpl.
  - destruct (Z.eqb k0 k); done.
  - destruct (Z.eqb_spec k' k0) as [->|Hne]; simpl.
    + destruct (Z.eqb k0 k); done.
    + rewrite IH. destruct (Z.eqb_spec k' k) as [->|Hk]; [|done].
      destruct (Z.eqb_spec k0 k); [congruence|done].
Qed.

Lemma group_append_keys k0 v d x :
  x ∈ map fst (group_append k0 v d) <-> x = k0 \/ x ∈ map fst d.
Proof.
  induction d as [|[k' vs] d IH]; simpl.
  - rewrite list_elem_of_singleton, elem_of_nil. tauto.
  - destruct (Z.eqb_spec k' k0) as [->|Hne]; simpl; rewrite !elem_of_cons; [tauto|].
    rewrite IH. tauto.
Qed.

Lemma group_append_NoDup k0 v d :
  NoDup (map fst d) -> NoDup (map fst (group_append k0 v d)).
Proof.
  induction d as [|[k' vs] d IH]; simpl; intros Hnd.
  - apply NoDup_singleton.
  - apply NoDup_cons in Hnd as [Hk Hnd].
    destruct (Z.eqb_spec k' k0) as [->|Hne]; simpl; apply NoDup_cons; split.
    + done.
    + done.
    + rewrite group_append_keys. intros [->|H]; [done|tauto].
    + by apply IH.
Qed.

Lemma zdict_get_elem {V} (d : list (Z * V)) k v :
  NoDup (map fst d) -> (k, v) ∈ d <-> zdict_get k d = Some v.
Proof.
  induction d as [|[k' v'] d IH]; simpl; intros Hnd.
  - split; [intros H; by apply not_elem_of_nil in H|discriminate].
  - apply NoDup_cons in Hnd as [Hk Hnd]. rewrite elem_of_cons, IH by done.
    destruct (Z.eqb_spec k' k) as [->|Hne].
    + split.
      * intros [[= <-]|H]; [done|]. exfalso. apply Hk.
        apply list_elem_of_fmap. exists (k, v). split; [done|]. by apply IH.
      * intros [= ->]. by left.
    + split; [intros [[= -> _]|H]; [congruence|done]|by right].
Qed.

Lemma priority_dict_snoc ps p :
  priority_dict (ps ++ [p])%list = group_append (priority p) (policy_type_name p) (priority_dict ps).
Proof. unfold priority_dict. by rewrite fold_left_app. Qed.

Lemma priority_dict_NoDup ps : NoDup (map fst (priority_dict ps)).
Proof.
  induction ps as [|p ps IH] using rev_ind; [constructor|].
  rewrite priority_dict_snoc. by apply group_append_NoDup.
Qed.

Lemma zdict_get_priority_dict ps k :
  zdict_get k (priority_dict ps)
  = if decide (k ∈ map priority ps)
    then Some (map policy_type_name (filter (fun p => priority p = k) ps)) else None.
Proof.
  induction ps as [|p ps IH] using rev_ind; [done|].
  rewrite priority_dict_snoc, zdict_get_group_append, IH, map_app, filter_app, filter_cons,
    filter_nil, map_app.
  destruct (Z.eqb_spec (priority p) k) as [<-|Hne].
  - rewrite (decide_True (P := priority p = priority p)) by done.
    rewrite (decide_True (P := priority p ∈ (map priority ps ++ map priority [p])%list))
      by (rewrite elem_of_app; right; by left).
    destruct (decide (priority p ∈ map priority ps)) as [Hin|n]; simpl.
    + done.
    + rewrite filter_all_out; [done|]. intros x Hx Hp. apply n.
      apply list_elem_of_fmap. exists x. by split.
  - rewrite (decide_False (P := priority p = k)) by done. rewrite app_nil_r.
    destruct (decide (k ∈ map priority ps)) as [H|H];
      [rewrite decide_True | rewrite decide_False]; try done.
    + rewrite elem_of_app. by left.
    + rewrite elem_of_app. simpl. rewrite list_elem_of_singleton. intros [?|?]; congruence.
Qed.

Lemma NoDup_map_filter_length {A} (f : A -> Z) (l : list A) :
  NoDup (map f l) <-> forall k, length (filter (fun x => f x = k) l) <= 1.
Proof.
  induction l as [|x l IH]; simpl.
  - split; [intros _ k; simpl; lia|constructor].
  - rewrite NoDup_cons, IH. split.
    + intros [Hx Hl] k. rewrite filter_cons. destruct (decide (f x = k)) as [<-|Hne].
      * simpl. rewrite filter_all_out; [simpl; lia|].
        intros y Hy Hfy. apply Hx. apply list_elem_of_fmap. by exists y.
      * apply Hl.
    + intros Hk. split.
      * intros Hin. apply list_elem_of_fmap in Hin as [y [Hfy Hy]].
        specialize (Hk (f x)). rewrite filter_cons, decide_True in Hk by done. simpl in Hk.
        assert (y ∈ filter (fun z => f z = f x) l) as Hy' by (by apply list_elem_of_filter).
        destruct (filter (fun z => f z = f x) l); [by apply not_elem_of_nil in Hy'|simpl in Hk; lia].
      * intros k. specialize (Hk k). rewrite filter_cons in Hk.
        destruct (decide (f x = k)); simpl in Hk; lia.
Qed.

Lemma NoDup_map_filter {A B} (P : A -> Prop) `{!forall x, Decision (P x)} (f : A -> B) l :
  NoDup (map f l) -> NoDup (map f (filter P l)).
Proof.
  induction l as [|x l IH]; intros Hd; [constructor|].
  simpl in Hd. apply NoDup_cons in Hd as [Hx Hd]. rewrite filter_cons.
  case_decide; simpl; [|by apply IH].
  constructor; [|by apply IH].
  intros Hin. apply Hx. apply list_elem_of_fmap in Hin as [y [Hy Hin]].
  apply list_elem_of_filter in Hin as [_ Hin].
  apply list_elem_of_fmap. by exists y.
Qed.

(** X13: [_check_priorities] groups the policy class names by priority, in
    policy order, and warns once for each priority shared by two or more
    policies, with all their class names: the warned groups are exactly
    those priorities, no priority is warned about twice, and there is one
    warning per group. It warns about nothing exactly when the priorities of
    the policies are pairwise distinct. *)
Theorem X13_check_priorities (e : SimplePolicyEnsemble) :
  (forall k vs, (k, vs) ∈ priority_warning_groups e <->
     vs = map policy_type_name (filter (fun p => priority p = k) (policies e)) /\
     1 < length vs) /\
  NoDup (map fst (priority_warning_groups e)) /\
  length (check_priorities e) = length (priority_warning_groups e) /\
  (check_priorities e = [] <-> NoDup (map priority (policies e))).
Proof.
  assert (Hg : forall k vs, (k, vs) ∈ priority_warning_groups e <->
     vs = map policy_type_name (filter (fun p => priority p = k) (policies e)) /\
     1 < length vs).
  { intros k vs. unfold priority_warning_groups. rewrite list_elem_of_filter. simpl.
    rewrite zdict_get_elem by apply priority_dict_NoDup. rewrite zdict_get_priority_dict.
    destruct (decide (k ∈ map priority (policies e))) as [Hin|Hn].
    - split; [intros [Hl [= <-]]; done|intros [-> Hl]; done].
    - split; [intros [_ ?]; discriminate|]. intros [-> Hl]. exfalso.
      rewrite filter_all_out in Hl; [simpl in Hl; lia|].
      intros x Hx Hp. apply Hn. apply list_elem_of_fmap. by exists x. }
  split; [exact Hg|].
  split; [unfold priority_warning_groups; apply NoDup_map_filter, priority_dict_NoDup|].
  split; [unfold check_priorities; apply length_map|].
  unfold check_priorities. rewrite NoDup_map_filter_length. split.
  - intros Hnil k.
    assert (Hw : priority_warning_groups e = [])
      by (destruct (priority_warning_groups e); [done|discriminate]).
    destruct (decide (length (filter (fun x => priority x = k) (policies e)) <= 1)); [done|].
    exfalso. assert (Hin : (k, map policy_type_name (filter (fun p => priority p = k) (policies e)))
                           ∈ priority_warning_groups e)
      by (apply Hg; split; [done|rewrite length_map; lia]).
    rewrite Hw in Hin. by apply not_elem_of_nil in Hin.
  - intros Hk. destruct (priority_warning_groups e) as [|[k vs] gs] eqn:Hw; [done|exfalso].
    assert (Hin : (k, vs) ∈ (k, vs) :: gs) by (by left).
    apply Hg in Hin as [-> Hl]. rewrite length_map in Hl. specialize (Hk k). lia.
Qed.

(** X14: [PolicyEnsemble.persist] writes each policy to its own directory
    (the directory names are pairwise distinct, whatever the class names),
    and [PolicyEnsemble.load], given metadata whose module paths resolve back
    to the policies' classes, reads exactly those directories in the same
    order. *)
Theorem X14_persist_load_dirs (module_path : Policy -> string) (resolve : string -> string)
    (e : SimplePolicyEnsemble) :
  (forall p, resolve (module_path p) = policy_type_name p) ->
  NoDup (persist_dir_names e) /\
  length (persist_dir_names e) = length (policies e) /\
  load_dir_names (map resolve (map module_path (policies e))) = persist_dir_names e.
Proof.
  intros Hres. split; [|split].
  - apply NoDup_alt. intros i j x Hi Hj. unfold persist_dir_names in Hi, Hj.
    rewrite list_lookup_imap in Hi, Hj.
    destruct (policies e !! i) as [p|] eqn:Hp; [|discriminate].
    destruct (policies e !! j) as [q|] eqn:Hq; [|discriminate].
    simpl in Hi, Hj. apply (policy_name_index i p j q). congruence.
  - unfold persist_dir_names. apply length_imap.
  - unfold load_dir_names, persist_dir_names. rewrite map_map, imap_fmap.
    apply imap_ext. intros i p _. simpl. by rewrite Hres.
Qed.

Lemma X14_persist_load_dirs_witness :
  (forall p, (fun n : string => n) (policy_type_name p) = policy_type_name p) /\
  (NoDup (persist_dir_names (mkEnsemble [ted_policy; ted_policy])) /\
   length (persist_dir_names (mkEnsemble [ted_policy; ted_policy]))
   = length (policies (mkEnsemble [ted_policy; ted_policy])) /\
   load_dir_names (map (fun n : string => n) (map policy_type_name
     (policies (mkEnsemble [ted_policy; ted_policy]))))
   = persist_dir_names (mkEnsemble [ted_policy; ted_policy])).
Proof.
  assert (H : forall p, (fun n : string => n) (policy_type_name p) = policy_type_name p)
    by reflexivity.
  split; [exact H|]. exact (X14_persist_load_dirs policy_type_name (fun n => n) _ H).
Defined.

Lemma substring_full (s : string) : String.substring 0 (String.length s) s = s.
Proof. induction s as [|c s IH]; simpl; [done|by rewrite IH]. Qed.

Lemma substring_after (pre s : string) :
  String.substring (String.length pre) (String.length s) (pre +s+ s) = s.
Proof. induction pre as [|c pre IH]; simpl; [apply substring_full|exact IH]. Qed.

Lemma substring_split (s : string) m :
  m <= String.length s ->
  s = String.substring 0 m s +s+ String.substring m (String.length s - m) s.
Proof.
  revert m. induction s as [|c s IH]; intros m Hm; simpl in *.
  - destruct m; simpl; [done|lia].
  - destruct m as [|m]; simpl.
    + by rewrite substring_full.
    + exact (f_equal (String c) (IH m ltac:(lia))).
Qed.

Lemma string_length_append (a b : string) :
  String.length (a +s+ b) = String.length a + String.length b.
Proof. induction a as [|c a IH]; simpl; [done|by rewrite IH]. Qed.

Lemma endswith_spec (s suffix : string) :
  endswith s suffix = true <-> exists pre, s = pre +s+ suffix.
Proof.
  unfold endswith. split.
  - intros H. apply andb_true_iff in H as [Hk Heq].
    apply Nat.leb_le in Hk. apply String.eqb_eq in Heq.
    exists (String.substring 0 (String.length s - String.length suffix) s).
    rewrite (substring_split s (String.length s - String.length suffix)) at 1 by lia.
    f_equal. replace (String.length s - (String.length s - String.length suffix))
      with (String.length suffix) by lia. exact Heq.
  - intros [pre ->]. rewrite string_length_append.
    apply andb_true_iff. split; [apply Nat.leb_le; lia|].
    apply String.eqb_eq. replace (String.length pre + String.length suffix - String.length suffix)
      with (String.length pre) by lia. apply substring_after.
Qed.

Lemma no_underscore_app_underscore (u v : string) : no_underscore (u +s+ "_" +s+ v) = false.
Proof. induction u as [|c u IH]; simpl; [done|]. by rewrite IH, andb_false_r. Qed.

Lemma underscore_suffix a b x y :
  no_underscore x = true -> no_underscore y = true ->
  a +s+ "_" +s+ x = b +s+ "_" +s+ y -> x = y.
Proof.
  revert b. induction a as [|c a IH]; intros [|c' b] Hx Hy H.
  - injection H as Hr. exact Hr.
  - injection H as Hc Hr.
    assert (E : no_underscore ("" +s+ x) = false) by (rewrite Hr; apply no_underscore_app_underscore).
    change (no_underscore x = false) in E. congruence.
  - injection H as Hc Hr.
    assert (E : no_underscore ("" +s+ y) = false)
      by (rewrite <- Hr; apply no_underscore_app_underscore).
    change (no_underscore y = false) in E. congruence.
  - injection H as Hc Hr. simpl in Hx, Hy. exact (IH b Hx Hy Hr).
Qed.

Lemma endswith_policy_name i p name :
  no_underscore (policy_type_name p) = true -> no_underscore name = true ->
  endswith (policy_name i p) ("_" +s+ name) = String.eqb (policy_type_name p) name.
Proof.
  intros Hp Hn. unfold policy_name.
  destruct (String.eqb_spec (policy_type_name p) name) as [<-|Hne].
  - apply endswith_spec. exists ("policy_" +s+ pretty i).
    rewrite string_append_assoc. reflexivity.
  - destruct (endswith _ _) eqn:E; [|done]. exfalso. apply Hne.
    apply endswith_spec in E as [pre Hpre].
    symmetry. apply (underscore_suffix pre ("policy_" +s+ pretty i)); [done|done|].
    rewrite <- (string_append_assoc "policy_" (pretty i)) in Hpre. exact (eq_sym Hpre).
Qed.

(** X15: for the names [probabilities_using_best_policy] builds,
    ["policy_{i}_{ClassName}"] with a class name without underscores,
    [is_not_memo_policy] is false exactly when the class is
    [MemoizationPolicy] or [AugmentedMemoizationPolicy], whatever the index. *)
Theorem X15_is_not_memo_policy_name i p :
  no_underscore (policy_type_name p) = true ->
  is_not_memo_policy (policy_name i p)
  = negb (String.eqb (policy_type_name p) MemoizationPolicy_name
          || String.eqb (policy_type_name p) AugmentedMemoizationPolicy_name).
Proof.
  intros Hp. unfold is_not_memo_policy.
  rewrite !endswith_policy_name by (done || reflexivity). reflexivity.
Qed.

Lemma X15_is_not_memo_policy_name_witness :
  no_underscore (policy_type_name ted_policy) = true /\
  is_not_memo_policy (policy_name 12 ted_policy)
  = negb (String.eqb (policy_type_name ted_policy) MemoizationPolicy_name
          || String.eqb (policy_type_name ted_policy) AugmentedMemoizationPolicy_name).
Proof.
  assert (H : no_underscore (policy_type_name ted_policy) = true) by reflexivity.
  split; [exact H|]. exact (X15_is_not_memo_policy_name 12 ted_policy H).
Defined.

(* ------------------------------------------------------------------ *)
(** ** Extra properties: story evaluation *)

Lemma add_to_store_Items s ap at' ip it ep et :
  add_to_store s (Items ap) (Items at') (Items ip) (Items it) (Items ep) (Items et)
  = mkStore (action_predictions s ++ ap) (action_targets s ++ at')
            (intent_predictions s ++ ip) (intent_targets s ++ it)
            (entity_predictions s ++ ep) (entity_targets s ++ et).
Proof. reflexivity. Qed.

Lemma app_eq_head_bool {A} `{EqDecision A} (l a b : list A) :
  bool_decide ((l ++ a)%list = (l ++ b)%list) = bool_decide (a = b).
Proof. apply bool_decide_ext. split; [apply app_inv_head|intros ->; done]. Qed.

(** X16: merging the results of a tracker into a store that has no
    prediction/target mismatch gives a store with a mismatch exactly when
    the tracker results have one; in particular two mismatch-free stores
    merge into a mismatch-free store. *)
Theorem X16_merge_store_mismatch s other :
  has_prediction_target_mismatch s = false ->
  has_prediction_target_mismatch (merge_store s other) = has_prediction_target_mismatch other.
Proof.
  unfold has_prediction_target_mismatch. intros H.
  apply orb_false_iff in H as [H H3]. apply orb_false_iff in H as [H1 H2].
  apply negb_false_iff, bool_decide_eq_true in H1, H2, H3.
  unfold merge_store. rewrite add_to_store_Items. simpl.
  rewrite H1, H2, H3, !app_eq_head_bool. reflexivity.
Qed.

Lemma X16_merge_store_mismatch_witness :
  has_prediction_target_mismatch (mkStore ["utter_greet"] ["utter_greet"] ["greet"] ["greet"] [] []) = false /\
  has_prediction_target_mismatch
    (merge_store (mkStore ["utter_greet"] ["utter_greet"] ["greet"] ["greet"] [] [])
                 (mkStore ["action_listen"] ["utter_bye"] [] [] [] []))
  = has_prediction_target_mismatch (mkStore ["action_listen"] ["utter_bye"] [] [] [] []).
Proof.
  assert (H : has_prediction_target_mismatch
                (mkStore ["utter_greet"] ["utter_greet"] ["greet"] ["greet"] [] []) = false)
    by (vm_compute; reflexivity).
  split; [exact H|]. exact (X16_merge_store_mismatch _ _ H).
Defined.

(** X17: [_in_training_data_fraction] fails (division by zero) exactly on
    an empty action list; otherwise the fraction lies between 0 and 1, is 1
    exactly when every action was predicted by a memoization policy, and 0
    exactly when none was. *)
Theorem X17_in_training_data_fraction (l : list ActionItem) :
  (in_training_data_fraction l = None <-> l = []) /\
  (forall q, in_training_data_fraction l = Some q ->
     (0 <= q <= 1)%Q /\
     ((q == 1)%Q <-> Forall (fun a => predicted_by_memo a = true) l) /\
     ((q == 0)%Q <-> Forall (fun a => predicted_by_memo a = false) l)).
Proof.
  unfold in_training_data_fraction. rewrite length_map.
  set (m := length (filter (fun a => predicted_by_memo a = true) l)).
  assert (Hm : m <= length l) by apply length_filter.
  assert (Hall : m = length l <-> Forall (fun a => predicted_by_memo a = true) l).
  { unfold m. clear Hm m. induction l as [|a l IH]; simpl; [split; [constructor|done]|].
    rewrite filter_cons, Forall_cons. pose proof (length_filter (fun a => predicted_by_memo a = true) l).
    destruct (decide (predicted_by_memo a = true)) as [Ha|Ha]; simpl; rewrite <- IH; split.
    - intros; split; [done|lia].
    - intros [_ ?]; lia.
    - lia.
    - intros [? _]; done. }
  assert (Hnone : m = 0 <-> Forall (fun a => predicted_by_memo a = false) l).
  { unfold m. clear Hm Hall m. induction l as [|a l IH]; simpl; [split; [constructor|done]|].
    rewrite filter_cons, Forall_cons.
    destruct (decide (predicted_by_memo a = true)) as [Ha|Ha]; simpl; rewrite <- IH; split.
    - lia.
    - intros [Hf _]; congruence.
    - intros; split; [by apply not_true_is_false|done].
    - intros [_ ?]; done. }
  destruct (decide (length l = 0)) as [H0|H0].
  - split; [split; [intros _; by destruct l|done]|discriminate].
  - split; [split; [discriminate|intros ->; done]|].
    assert (Hp : exists p, Z.of_nat (length l) = Z.pos p)
      by (destruct (length l) as [|n]; [done|by exists (Pos.of_succ_nat n)]).
    destruct Hp as [p Hp]. rewrite Hp. intros q [= <-].
    rewrite <- Hall, <- Hnone.
    unfold Qdiv, Qinv, inject_Z, Qeq, Qle; simpl.
    assert (Z.of_nat m <= Z.pos p)%Z by lia.
    split; [split; lia|]. split; split; intros; lia.
Qed.

Lemma dict_get_is_Some {V} k (d : list (string * V)) : is_Some (dict_get k d) <-> k ∈ map fst d.
Proof.
  induction d as [|[k' v] d IH]; simpl.
  - split; [intros [? ?]; discriminate|intros H; by apply not_elem_of_nil in H].
  - rewrite elem_of_cons, <- IH. destruct (String.eqb_spec k' k) as [->|Hne].
    + split; [by left|by eexists].
    + split; [by right|intros [?|?]; [congruence|done]].
Qed.

Lemma dict_get_dict_set {V} k k' (v : V) d :
  dict_get k (dict_set k' v d) = if String.eqb k' k then Some v else dict_get k d.
Proof.
  induction d as [|[k0 v0] d IH]; simpl.
  - destruct (String.eqb k' k); done.
  - destruct (String.eqb_spec k0 k') as [->|Hne]; simpl.
    + destruct (String.eqb k' k); done.
    + rewrite IH. destruct (String.eqb_spec k0 k) as [->|Hk]; [|done].
      destruct (String.eqb_spec k' k); [congruence|done].
Qed.

Lemma clean_fold_get r ks c k :
  dict_get k (fold_left (clean_step r) ks c)
  = if decide (k ∈ ks) then (match dict_get k r with Some v => Some v | None => dict_get k c end)
    else dict_get k c.
Proof.
  revert c. induction ks as [|k0 ks IH]; intros c; simpl; [done|].
  rewrite IH. unfold clean_step.
  destruct (dict_get k0 r) as [v0|] eqn:E0.
  - rewrite (decide_True (P := k0 ∈ map fst r)) by (apply dict_get_is_Some; by eexists).
    rewrite dict_get_dict_set.
    destruct (String.eqb_spec k0 k) as [->|Hne].
    + rewrite E0, (decide_True (P := k ∈ k :: ks)) by (by left). by destruct (decide (k ∈ ks)).
    + destruct (decide (k ∈ ks)) as [Hk|Hk].
      * rewrite (decide_True (P := k ∈ k0 :: ks)) by (by right). done.
      * rewrite (decide_False (P := k ∈ k0 :: ks))
          by (rewrite elem_of_cons; intros [?|?]; [congruence|done]). done.
  - destruct (decide (k ∈ ks)) as [Hk|Hk].
    + rewrite (decide_True (P := k ∈ k0 :: ks)) by (by right). done.
    + destruct (String.eqb_spec k0 k) as [->|Hne].
      * rewrite (decide_True (P := k ∈ k :: ks)) by (by left). by rewrite E0.
      * rewrite (decide_False (P := k ∈ k0 :: ks))
          by (rewrite elem_of_cons; intros [?|?]; [congruence|done]). done.
Qed.

Lemma clean_fold_keys r ks c :
  NoDup ks -> (forall k, k ∈ ks -> k ∉ map fst c) ->
  map fst (fold_left (clean_step r) ks c) = (map fst c ++ filter (fun k => k ∈ map fst r) ks)%list.
Proof.
  revert c. induction ks as [|k0 ks IH]; intros c Hnd Hfresh; simpl.
  - by rewrite app_nil_r.
  - apply NoDup_cons in Hnd as [Hk0 Hnd]. rewrite filter_cons. unfold clean_step at 2.
    destruct (decide (k0 ∈ map fst r)) as [Hr|Hr].
    + destruct (proj2 (dict_get_is_Some k0 r) Hr) as [v Hv]. rewrite Hv.
      rewrite dict_set_fresh by (apply Hfresh; by left).
      rewrite IH; [|done|].
      * rewrite map_app. simpl. by rewrite <- (assoc_L app).
      * intros k Hk. rewrite map_app, elem_of_app. simpl. rewrite list_elem_of_singleton.
        intros [H| ->]; [|done]. apply (Hfresh k); [by right|done].
    + destruct (dict_get k0 r) as [v|] eqn:Hv.
      * exfalso. apply Hr, dict_get_is_Some. by eexists.
      * rewrite IH; [done|done|]. intros k Hk. apply Hfresh. by right.
Qed.

(** X18: [_clean_entity_results] turns each entity into a dict of the
    message text followed by those of [start], [end], [entity] and [value]
    that the entity has, in that order, with the entity's values; every
    other key of the entity is dropped, and a [text] key of the entity never
    replaces the message text. *)
Theorem X18_clean_entity_results text (rs : list EntityDict) :
  length (clean_entity_results text rs) = length rs /\
  forall r, r ∈ rs ->
   clean_entity text r ∈ clean_entity_results text rs /\
   map fst (clean_entity text r)
   = "text" :: filter (fun k => k ∈ map fst r) ["start"; "end"; "entity"; "value"] /\
   forall k, dict_get k (clean_entity text r)
             = if decide (k ∈ ["start"; "end"; "entity"; "value"]) then dict_get k r
               else if String.eqb k "text" then Some text else None.
Proof.
  split; [apply length_map|]. intros r Hr. split; [|split].
  - apply list_elem_of_fmap. by exists r.
  - change (map fst (fold_left (clean_step r) ["start"; "end"; "entity"; "value"] [("text", text)])
            = (map fst [("text", text)] ++
               filter (fun k => k ∈ map fst r) ["start"; "end"; "entity"; "value"])%list).
    apply clean_fold_keys.
    + repeat constructor; rewrite ?elem_of_cons, ?elem_of_nil; intuition discriminate.
    + intros k Hk. simpl. rewrite list_elem_of_singleton. intros ->.
      rewrite !elem_of_cons, elem_of_nil in Hk. intuition discriminate.
  - intros k.
    change (dict_get k (fold_left (clean_step r) ["start"; "end"; "entity"; "value"] [("text", text)])
      = if decide (k ∈ ["start"; "end"; "entity"; "value"]) then dict_get k r
        else if String.eqb k "text" then Some text else None).
    rewrite clean_fold_get. cbn [dict_get].
    destruct (decide (k ∈ ["start"; "end"; "entity"; "value"])) as [Hk|Hk].
    + destruct (dict_get k r); [done|].
      destruct (String.eqb_spec "text" k) as [<-|]; [|done].
      rewrite !elem_of_cons, elem_of_nil in Hk. intuition discriminate.
    + destruct (String.eqb_spec "text" k) as [<-|Hne]; [done|].
      destruct (String.eqb_spec k "text"); [congruence|done].
Qed.

Lemma collect_loop_eq (P : DialogueStateTracker -> EvaluationStore * DialogueStateTracker * list ActionItem)
    ts store failed correct acts :
  collect_loop P ts store failed correct acts =
  (fold_left (fun s t => merge_store s (P t).1.1) ts store,
   (failed ++ map (fun t => (P t).1.2)
                  (filter (fun t => has_prediction_target_mismatch (P t).1.1 = true) ts))%list,
   (correct ++ map (fun t => if has_prediction_target_mismatch (P t).1.1 then 0 else 1) ts)%list,
   (acts ++ concat (map (fun t => (P t).2) ts))%list).
Proof.
  revert store failed correct acts.
  induction ts as [|t ts IH]; intros store failed correct acts; simpl.
  - by rewrite !app_nil_r.
  - rewrite filter_cons. destruct (P t) as [[r pt] tacts] eqn:Ht. simpl.
    destruct (has_prediction_target_mismatch r) eqn:Hm; rewrite IH.
    + rewrite decide_True by done. simpl. rewrite Ht. simpl. by rewrite <- !app_assoc.
    + rewrite decide_False by congruence. simpl. rewrite ?Ht. simpl. by rewrite <- !app_assoc.
Qed.

Lemma length_filter_bool_split {A} (f : A -> bool) (l : list A) :
  length (filter (fun x => f x = true) l) + length (filter (fun x => f x = false) l) = length l.
Proof.
  induction l as [|x l IH]; [done|]. rewrite !filter_cons.
  destruct (f x); simpl; lia.
Qed.

(** X19: when [collect_story_predictions] returns, it reports as many
    stories as trackers, the predicted trackers of exactly the trackers whose
    results have a prediction/target mismatch (in order), and the
    concatenation of the trackers' action lists, which is never empty;
    [_evaluate_core_model] then returns the number of trackers without a
    mismatch. *)
Theorem X19_collect_story_predictions
    (P : DialogueStateTracker -> EvaluationStore * DialogueStateTracker * list ActionItem)
    (Metrics : Type) (get_evaluation_metrics : list nat -> list nat -> option Metrics)
    ts se n :
  collect_story_predictions P Metrics get_evaluation_metrics ts = Some (se, n) ->
  n = length ts /\
  failed_stories se
  = map (fun t => (P t).1.2) (filter (fun t => has_prediction_target_mismatch (P t).1.1 = true) ts) /\
  action_list se = concat (map (fun t => (P t).2) ts) /\
  action_list se <> [] /\
  evaluation_store se = fold_left (fun s t => merge_store s (P t).1.1) ts empty_store /\
  evaluate_core_model P Metrics get_evaluation_metrics ts
  = Some (length (filter (fun t => has_prediction_target_mismatch (P t).1.1 = false) ts)).
Proof.
  unfold evaluate_core_model. intros H. rewrite H. simpl.
  unfold collect_story_predictions in H. rewrite collect_loop_eq in H. simpl in H.
  destruct (get_evaluation_metrics _ _) as [m|]; simpl in H; [|discriminate].
  destruct (in_training_data_fraction (concat (map (fun t => (P t).2) ts))) as [q|] eqn:Hq;
    simpl in H; [|discriminate].
  injection H as <- <-. simpl.
  split; [done|]. split; [done|]. split; [done|]. split.
  - intros Hnil. rewrite Hnil in Hq. discriminate.
  - split; [done|]. f_equal. rewrite length_map.
    pose proof (length_filter_bool_split (fun t => has_prediction_target_mismatch (P t).1.1) ts)
      as Hs. cbv beta in Hs. lia.
Qed.

Lemma X19_collect_story_predictions_witness :
  collect_story_predictions replay_tracker unit (fun _ _ => Some tt) [mkTracker []; mkTracker []]
  = Some (mkStoryEvaluation
            (mkStore [ACTION_LISTEN_NAME; ACTION_LISTEN_NAME] [ACTION_LISTEN_NAME; ACTION_LISTEN_NAME]
                     [] [] [] [])
            [] [listen_item; listen_item] (0 # 2)%Q, 2) /\
  (2 = length [mkTracker []; mkTracker []] /\
   failed_stories (mkStoryEvaluation
            (mkStore [ACTION_LISTEN_NAME; ACTION_LISTEN_NAME] [ACTION_LISTEN_NAME; ACTION_LISTEN_NAME]
                     [] [] [] [])
            [] [listen_item; listen_item] (0 # 2)%Q)
   = map (fun t => (replay_tracker t).1.2)
       (filter (fun t => has_prediction_target_mismatch (replay_tracker t).1.1 = true)
               [mkTracker []; mkTracker []]) /\
   action_list (mkStoryEvaluation
            (mkStore [ACTION_LISTEN_NAME; ACTION_LISTEN_NAME] [ACTION_LISTEN_NAME; ACTION_LISTEN_NAME]
                     [] [] [] [])
            [] [listen_item; listen_item] (0 # 2)%Q)
   = concat (map (fun t => (replay_tracker t).2) [mkTracker []; mkTracker []]) /\
   action_list (mkStoryEvaluation
            (mkStore [ACTION_LISTEN_NAME; ACTION_LISTEN_NAME] [ACTION_LISTEN_NAME; ACTION_LISTEN_NAME]
                     [] [] [] [])
            [] [listen_item; listen_item] (0 # 2)%Q) <> [] /\
   evaluation_store (mkStoryEvaluation
            (mkStore [ACTION_LISTEN_NAME; ACTION_LISTEN_NAME] [ACTION_LISTEN_NAME; ACTION_LISTEN_NAME]
                     [] [] [] [])
            [] [listen_item; listen_item] (0 # 2)%Q)
   = fold_left (fun s t => merge_store s (replay_tracker t).1.1) [mkTracker []; mkTracker []] empty_store /\
   evaluate_core_model replay_tracker unit (fun _ _ => Some tt) [mkTracker []; mkTracker []]
   = Some (length (filter (fun t => has_prediction_target_mismatch (replay_tracker t).1.1 = false)
                          [mkTracker []; mkTracker []]))).
Proof.
  assert (H : collect_story_predictions replay_tracker unit (fun _ _ => Some tt) [mkTracker []; mkTracker []]
    = Some (mkStoryEvaluation
            (mkStore [ACTION_LISTEN_NAME; ACTION_LISTEN_NAME] [ACTION_LISTEN_NAME; ACTION_LISTEN_NAME]
                     [] [] [] [])
            [] [listen_item; listen_item] (0 # 2)%Q, 2)) by (vm_compute; reflexivity).
  split; [exact H|]. exact (X19_collect_story_predictions _ _ _ _ _ _ H).
Defined.

(* ------------------------------------------------------------------ *)
(** ** Extra properties: domain sanity *)

Lemma Domain_init_sane intents ents slots0 templates0 actions forms store d :
  (Domain_init intents ents slots0 templates0 actions forms store).1 = Some d ->
  check_domain_sanity d = true.
Proof.
  unfold Domain_init. simpl.
  destruct (collect_intent_properties intents) as [props|]; simpl; [|discriminate].
  destruct (check_domain_sanity _) eqn:Hs; [|discriminate]. by intros [= <-].
Qed.

(** X20: a domain built by [Domain.__init__] passed [_check_domain_sanity]:
    its slot names and entities are distinct, and the action every intent
    triggers is one of its actions, so [index_for_action] finds it at an
    index below [num_actions]. *)
Theorem X20_valid_domain_triggers intents ents slots0 templates0 actions forms store d :
  (Domain_init intents ents slots0 templates0 actions forms store).1 = Some d ->
  NoDup (map slot_name (slots d)) /\ NoDup (entities d) /\
  forall n p a, (n, p) ∈ intent_properties d -> triggers p = Some a ->
    exists i, index_for_action d a = Some i /\ i < num_actions d.
Proof.
  intros H. pose proof (Domain_init_sane _ _ _ _ _ _ _ _ H) as Hs.
  unfold check_domain_sanity in Hs.
  apply andb_true_iff in Hs as [Hs Htr]. apply andb_true_iff in Hs as [Hs He].
  apply andb_true_iff in Hs as [Ha Hsl].
  apply bool_decide_eq_true in Hsl, He.
  split; [done|]. split; [done|].
  intros n p a Hin Ht. pose proof (proj1 (forallb_forall _ _) Htr (n, p)) as Hx.
  simpl in Hx. rewrite Ht in Hx.
  apply bool_decide_eq_true in Hx; [|by apply list_elem_of_In].
  destruct (list_index a (action_names d)) as [i|] eqn:Hi.
  - exists i. split; [done|]. unfold num_actions. by eapply list_index_lt.
  - apply list_index_None in Hi. done.
Qed.

Lemma X20_valid_domain_triggers_witness :
  (Domain_init [IntentName "greet"] ["name"] [] [("utter_greet", ["hi"])]
               ["action_search"] ["restaurant_form"] true).1 = Some domain_a0 /\
  (NoDup (map slot_name (slots domain_a0)) /\ NoDup (entities domain_a0) /\
   forall n p a, (n, p) ∈ intent_properties domain_a0 -> triggers p = Some a ->
     exists i, index_for_action domain_a0 a = Some i /\ i < num_actions domain_a0).
Proof.
  assert (H : (Domain_init [IntentName "greet"] ["name"] [] [("utter_greet", ["hi"])]
               ["action_search"] ["restaurant_form"] true).1 = Some domain_a0)
    by (vm_compute; reflexivity).
  split; [exact H|]. exact (X20_valid_domain_triggers _ _ _ _ _ _ _ _ H).
Defined.

